(** * mcp-rpc: tool builders, tool-tree flattening and handler registration

    A shallow embedding of [packages/mcp-rpc/src/tool.ts] and
    [packages/mcp-rpc/src/index.ts].

    JavaScript objects that the library mutates ([ToolBuilder], [RPC], the
    server's tool table) live in a store and are referred to by location, so
    that aliasing is visible: a [Tool] keeps a reference to the builder it was
    made from, and a registered callback keeps a reference to the registry.
    Functions supplied by the caller (tool handlers, context factories) are
    Rocq functions from JavaScript values to a completion. *)

From Stdlib Require Import ZArith Ascii.
From stdpp Require Import base option list strings gmap fin_maps.

Set Warnings "-register-all,-clear-no-such-hyp".

(** ** JavaScript values and the outcome of calls *)

Module JS.

(** The values that flow through contexts, inputs and responses. *)
Inductive value :=
| VUndefined
| VNull
| VBool (b : bool)
| VNumber (n : Z)
| VString (s : string)
| VArray (items : list value)
| VObject (props : list (string * value)).

(** The read [v?.k] of a key that no built-in prototype defines: the own
    property of a record, and [undefined] where there is none and on every
    other value. *)
Fixpoint get_prop (k : string) (props : list (string * value)) : value :=
  match props with
  | [] => VUndefined
  | (k', v) :: rest => if decide (k' = k) then v else get_prop k rest
  end.

Definition get (v : value) (k : string) : value :=
  match v with
  | VObject props => get_prop k props
  | _ => VUndefined
  end.

(** The eventual state of a promise. [Pending] stands for a promise that
    never settles. *)
Inductive PromiseState :=
| Fulfilled (v : value)
| Rejected (e : value)
| Pending.

(** What a call hands back when it returns normally: a plain value or a
    promise. *)
Inductive Returned :=
| Plain (v : value)
| Promise (p : PromiseState).

(** A call either returns or throws. *)
Inductive Completion :=
| Return (r : Returned)
| Throw (e : value).

(** [await e] inside an async function, where [e] is a call. *)
Inductive Awaited :=
| Got (v : value)
| Raised (e : value)
| Suspended.

Definition await (c : Completion) : Awaited :=
  match c with
  | Throw e => Raised e
  | Return (Plain v) => Got v
  | Return (Promise (Fulfilled v)) => Got v
  | Return (Promise (Rejected e)) => Raised e
  | Return (Promise Pending) => Suspended
  end.

(** The promise of an async function whose last statement is
    [return <call>]: a throw rejects it, a plain value fulfils it, a
    promise is adopted. *)
Definition async_return (c : Completion) : PromiseState :=
  match c with
  | Throw e => Rejected e
  | Return (Plain v) => Fulfilled v
  | Return (Promise p) => p
  end.

(** What the server sees when it awaits the promise of a callback. *)
Definition observe (p : PromiseState) : Awaited :=
  match p with
  | Fulfilled v => Got v
  | Rejected e => Raised e
  | Pending => Suspended
  end.

(** A call fails with [e] when it throws [e] or returns a promise that
    rejects with [e]. *)
Definition fails_with (c : Completion) (e : value) : Prop :=
  c = Throw e ∨ c = Return (Promise (Rejected e)).

(** Truthiness of an optional string, as tested by [parentName ? .. : ..]:
    [undefined] and the empty string are falsy. *)
Definition truthy (s : option string) : bool :=
  match s with
  | Some (String _ _) => true
  | Some EmptyString => false
  | None => false
  end.

(** [Array.prototype.join] with separator ["."]. *)
Fixpoint join_dot (parts : list string) : string :=
  match parts with
  | [] => ""
  | [p] => p
  | p :: rest => p +:+ "." +:+ join_dot rest
  end.

End JS.
Import JS.

(** ** zod schemas

    The library never looks inside a schema; it stores the handle and passes
    it on to the server. *)

Inductive ZodType := ZString | ZNumber | ZBoolean.

Record ZodObject := z_object { shape : list (string * ZodType) }.

(** ** types.ts *)

Record Args := { ctx : value; input : value }.

(** ** tool.ts *)

Definition loc := nat.

(** [class ToolBuilder]: a description and the schema set by [input]. *)
Record ToolBuilder := {
  description : string;
  inputSchema : option ZodObject;
}.

Global Instance ToolBuilder_inhabited : Inhabited ToolBuilder :=
  populate {| description := ""; inputSchema := None |}.

(** [class Tool]: the private reference to the builder and the handler [fn].
    A [Tool] has no method that assigns its fields. *)
Record Tool := {
  builder : loc;
  fn : Args → Completion;
}.

(** ** index.ts: the tool tree

    [RootTools]: a record whose values are tools or records again.  A record
    is kept as the sequence [Object.entries] enumerates. *)

Inductive ToolNode :=
| IsTool (t : Tool)
| Nested (tools : list (string * ToolNode)).

Definition ToolTree := list (string * ToolNode).

(** [const fullName = parentName ? `${parentName}.${name}` : name] *)
Definition fullNameOf (parentName : option string) (name : string) : string :=
  match parentName with
  | Some p => if truthy parentName then p +:+ "." +:+ name else name
  | None => name
  end.

(** One turn of the loop of [resolveTools], for the entry [name]/[tool]
    whose [fullName] has been computed. *)
Fixpoint resolveEntry (fullName : string) (tool : ToolNode) : list (string * Tool) :=
  match tool with
  | IsTool t => [(fullName, t)]
  | Nested tools =>
      flat_map (λ entry, resolveEntry (fullNameOf (Some fullName) entry.1) entry.2) tools
  end.

Definition resolveTools (tools : ToolTree) (parentName : option string)
  : list (string * Tool) :=
  flat_map (λ entry, resolveEntry (fullNameOf parentName entry.1) entry.2) tools.

(** ** The flattening as the specification words it

    Every leaf with the keys on the path from the root, depth first and in
    declaration order; the name is the path joined with dots. *)

Fixpoint leavesOf (path : list string) (tool : ToolNode) : list (list string * Tool) :=
  match tool with
  | IsTool t => [(path, t)]
  | Nested tools => flat_map (λ entry, leavesOf (path ++ [entry.1]) entry.2) tools
  end.

Definition leaves (tools : ToolTree) : list (list string * Tool) :=
  flat_map (λ entry, leavesOf [entry.1] entry.2) tools.

Definition flatten_spec (tools : ToolTree) : list (string * Tool) :=
  map (λ leaf, (join_dot leaf.1, leaf.2)) (leaves tools).

(** ** The store

    [class RPC]: the optional context factory and the metadata record. *)
Record RPC := {
  createContext : option (value → Completion);
  _metadata : gmap string value;
}.

Global Instance RPC_inhabited : Inhabited RPC :=
  populate {| createContext := None; _metadata := ∅ |}.

(** The callback that [register] hands to the server.  The arrow function
    closes over [rpc] (the registry object) and [tool]; it is kept as this
    pair and run by [callback_run]. *)
Record Callback := {
  cb_rpc : loc;
  cb_tool : Tool;
}.

(** Modelled from the spec: the tool table of the external server (the
    class [McpServer] of the SDK is not part of this repository).  Following
    the server registration contract, [server.tool(name, description,
    inputSchema, callback)] adds one row to the table of that server. *)
Record RegisteredTool := {
  rt_name : string;
  rt_description : string;
  rt_inputSchema : option ZodObject;
  rt_callback : Callback;
}.

(** The store.  A reference is always to an object that [new] has put
    there, and [!!!] reads it; a server that nothing was registered on yet
    has the empty table. *)
Record World := {
  builders : gmap loc ToolBuilder;
  rpcs : gmap loc RPC;
  servers : gmap loc (list RegisteredTool);
}.

Definition set_builders (f : gmap loc ToolBuilder → gmap loc ToolBuilder) (w : World) : World :=
  {| builders := f (builders w); rpcs := rpcs w; servers := servers w |}.

Definition set_rpcs (f : gmap loc RPC → gmap loc RPC) (w : World) : World :=
  {| builders := builders w; rpcs := f (rpcs w); servers := servers w |}.

Definition set_servers
    (f : gmap loc (list RegisteredTool) → gmap loc (list RegisteredTool)) (w : World) : World :=
  {| builders := builders w; rpcs := rpcs w; servers := f (servers w) |}.

(** Statements that read or write the store. *)
Definition State (A : Type) : Type := World → A * World.

Global Instance State_ret : MRet State := λ A a w, (a, w).
Global Instance State_bind : MBind State :=
  λ A B f m w, let '(a, w') := m w in f a w'.

Definition exec {A} (m : State A) (w : World) : World := (m w).2.
Definition eval {A} (m : State A) (w : World) : A := (m w).1.

(** An expression that only reads the store. *)
Definition reads {A} (f : World → A) : State A := λ w, (f w, w).

(** [for (const x of xs) body(x)] *)
Fixpoint for_of {A} (xs : list A) (body : A → State unit) : State unit :=
  match xs with
  | [] => mret tt
  | x :: rest => body x ≫= λ _, for_of rest body
  end.

(** ** tool.ts: [ToolBuilder] and [Tool] *)

(** [new ToolBuilder(description)]: [inputSchema] starts undefined. *)
Definition new_ToolBuilder (description : string) : State loc :=
  λ w, let l := fresh (dom (builders w)) in
       (l, set_builders <[l := {| description := description; inputSchema := None |}]> w).

(** [input(schema) { this.inputSchema = schema; return this }] *)
Definition ToolBuilder_input (this : loc) (schema : ZodObject) : State loc :=
  λ w, (this,
        set_builders
          <[this := {| description := description (builders w !!! this);
                       inputSchema := Some schema |}]> w).

(** [handler(fn) { return new Tool(this, fn) }] *)
Definition ToolBuilder_handler (this : loc) (fn : Args → Completion) : State Tool :=
  mret {| builder := this; fn := fn |}.

(** [get description() { return this.builder.description }] *)
Definition Tool_description (w : World) (t : Tool) : string :=
  description (builders w !!! builder t).

(** [get input() { return this.builder.inputSchema }] *)
Definition Tool_input (w : World) (t : Tool) : option ZodObject :=
  inputSchema (builders w !!! builder t).

(** ** index.ts: [createTools] *)

(** [Object.fromEntries]: entries are written in order, so a later entry
    with the same key overwrites an earlier one. *)
Definition write_all {V} (entries : list (string * V)) (o : gmap string V) : gmap string V :=
  fold_left (λ o entry, <[entry.1 := entry.2]> o) entries o.

Definition fromEntries {V} (entries : list (string * V)) : gmap string V :=
  write_all entries ∅.

(** [{ description: tool.description }] *)
Definition summaryOf (w : World) (tool : Tool) : value :=
  VObject [("description", VString (Tool_description w tool))].

Definition createTools (w : World) (tools : list (string * Tool)) : gmap string value :=
  fromEntries (map (λ entry, (entry.1, summaryOf w entry.2)) tools).

(** ** index.ts: [class RPC] *)

(** [constructor(createContext?)]; [_metadata] starts as [{}]. *)
Definition new_RPC (createContext : option (value → Completion)) : State loc :=
  λ w, let l := fresh (dom (rpcs w)) in
       (l, set_rpcs <[l := {| createContext := createContext; _metadata := ∅ |}]> w).

(** [context(createContext) { this.createContext = createContext; return this }] *)
Definition RPC_context (this : loc) (f : value → Completion) : State loc :=
  λ w, (this,
        set_rpcs <[this := {| createContext := Some f;
                              _metadata := _metadata (rpcs w !!! this) |}]> w).

(** [metadata(metadata) { this._metadata = metadata; return this }] *)
Definition RPC_metadata (this : loc) (m : gmap string value) : State loc :=
  λ w, (this,
        set_rpcs <[this := {| createContext := createContext (rpcs w !!! this);
                              _metadata := m |}]> w).

(** [createRPCBuilder() { return new RPC() }] *)
Definition createRPCBuilder : State loc := new_RPC None.

(** ** index.ts: [createHandlerFactory] *)

(** The object returned by [handler(tools)].  [register] closes over [rpc]
    and [_tools]; [$inferTools] is [undefined] at run time and only carries
    a type. *)
Record Handler := {
  handler_rpc : loc;
  _tools : list (string * Tool);
  tools : gmap string value;
  metadata : gmap string value;
}.

(** [server.tool(name, description, inputSchema, callback)] on the tool
    table of [server]. *)
Definition server_tool (server : loc) (name description : string)
    (inputSchema : option ZodObject) (callback : Callback) : State unit :=
  λ w, (tt,
        set_servers
          <[server := (servers w !!! server) ++
                      [{| rt_name := name; rt_description := description;
                          rt_inputSchema := inputSchema; rt_callback := callback |}]]> w).

(** [createHandlerFactory(rpc)] applied to [tools]: the function [handler]. *)
Definition createHandlerFactory (rpc : loc) (tree : ToolTree) (w : World) : Handler :=
  let _tools := resolveTools tree None in
  {| handler_rpc := rpc;
     _tools := _tools;
     tools := createTools w _tools;
     metadata := _metadata (rpcs w !!! rpc) |}.

(** [register: (server) => { for (const [name, tool] of _tools) server.tool(..) }] *)
Definition register (h : Handler) (server : loc) : State unit :=
  for_of (_tools h) (λ entry w,
    server_tool server entry.1 (Tool_description w entry.2) (Tool_input w entry.2)
      {| cb_rpc := handler_rpc h; cb_tool := entry.2 |} w).

(** [createToolFactory()] and [create()]: the two factories of a registry. *)
Definition createToolFactory (description : string) : State loc :=
  new_ToolBuilder description.

Record Factories := {
  handler : ToolTree → World → Handler;
  tool : string → State loc;
}.

Definition RPC_create (this : loc) : Factories :=
  {| handler := createHandlerFactory this; tool := createToolFactory |}.

(** ** The registered callback

    [async (input, { authInfo }) => {
       const ctx = await rpc.createContext?.({ authInfo });
       return tool.fn({ ctx, input }) }]

    A run yields the calls made to caller-supplied functions, in order, and
    the state of the promise handed to the server. *)
Inductive Event :=
| CallCreateContext (authInfo : value)
| CallFn (args : Args).

Definition callback_body (createContext : option (value → Completion)) (tool : Tool)
    (input authInfo : value) : list Event * PromiseState :=
  let '(calls, awaited) :=
    match createContext with
    | Some createContext => ([CallCreateContext authInfo], await (createContext authInfo))
    | None => ([], Got VUndefined)
    end in
  match awaited with
  | Got ctx =>
      let args := {| ctx := ctx; input := input |} in
      (calls ++ [CallFn args], async_return (fn tool args))
  | Raised e => (calls, Rejected e)
  | Suspended => (calls, Pending)
  end.

(** Running the closure: [rpc.createContext] is read from the registry
    object when the callback runs. *)
Definition callback_run (w : World) (cb : Callback) (input authInfo : value)
  : list Event * PromiseState :=
  callback_body (createContext (rpcs w !!! cb_rpc cb)) (cb_tool cb) input authInfo.

(** The row that [register] adds for one flattened entry, read off the
    store [w] in which it runs, and the rows of one whole [register]. *)
Definition row (rpc : loc) (w : World) (entry : string * Tool) : RegisteredTool :=
  {| rt_name := entry.1;
     rt_description := Tool_description w entry.2;
     rt_inputSchema := Tool_input w entry.2;
     rt_callback := {| cb_rpc := rpc; cb_tool := entry.2 |} |}.

Definition installed (h : Handler) (w : World) : list RegisteredTool :=
  map (row (handler_rpc h) w) (_tools h).

(** ** Programs over the library

    The calls a client can make, and their effect on the store.  Attaching a
    handler, creating a [Handler] and running a callback read the store and
    leave it as it is.  Assignments to a public field from outside the
    library are not among the calls. *)
Inductive Op :=
| OpCreateRPCBuilder
| OpContext (rpc : loc) (f : value → Completion)
| OpMetadata (rpc : loc) (m : gmap string value)
| OpTool (rpc : loc) (description : string)
| OpInput (b : loc) (schema : ZodObject)
| OpHandler (b : loc) (fn : Args → Completion)
| OpCreateHandler (rpc : loc) (tree : ToolTree)
| OpRegister (h : Handler) (server : loc)
| OpInvoke (cb : Callback) (input authInfo : value).

Definition step (op : Op) (w : World) : World :=
  match op with
  | OpCreateRPCBuilder => exec createRPCBuilder w
  | OpContext rpc f => exec (RPC_context rpc f) w
  | OpMetadata rpc m => exec (RPC_metadata rpc m) w
  | OpTool rpc description => exec (tool (RPC_create rpc) description) w
  | OpInput b schema => exec (ToolBuilder_input b schema) w
  | OpHandler b fn => exec (ToolBuilder_handler b fn) w
  | OpCreateHandler rpc tree => w
  | OpRegister h server => exec (register h server) w
  | OpInvoke cb input authInfo => w
  end.

Definition run (ops : list Op) (w : World) : World :=
  fold_left (λ w op, step op w) ops w.

(** [input] called on builder [b]. *)
Definition is_input_on (b : loc) (op : Op) : bool :=
  match op with
  | OpInput b' _ => bool_decide (b' = b)
  | _ => false
  end.

Definition empty_world : World := {| builders := ∅; rpcs := ∅; servers := ∅ |}.

(** Loading [index.ts] runs [export const initRPC = createRPCBuilder()]. *)
Definition initRPC : loc := eval createRPCBuilder empty_world.
Definition loaded : World := exec createRPCBuilder empty_world.

(** ** Shapes of tool trees *)

(** No record sits under the empty key at the top level. *)
Definition named_namespaces (tree : ToolTree) : bool :=
  forallb (λ entry, match entry.2 with
                    | IsTool _ => true
                    | Nested _ => truthy (Some entry.1)
                    end) tree.

(** A record literal holds no key twice, at any level. *)
Fixpoint distinct_keys (tool : ToolNode) : bool :=
  match tool with
  | IsTool _ => true
  | Nested tools =>
      bool_decide (NoDup (map fst tools)) && forallb (λ entry, distinct_keys entry.2) tools
  end.

(** The keys that count for the name of a leaf: [resolveTools] starts the
    name afresh as long as the name so far is the empty string, so empty
    keys at the front of a path are passed over, down to the last key. *)
Fixpoint effective_path (path : list string) : list string :=
  match path with
  | [] => []
  | key :: rest =>
      match rest with
      | [] => path
      | _ :: _ => if truthy (Some key) then path else effective_path rest
      end
  end.

(** A key without the separator. *)
Fixpoint dot_free (key : string) : bool :=
  match key with
  | EmptyString => true
  | String c rest => negb (Ascii.eqb c "."%char) && dot_free rest
  end.

(** Every key of the tree is non-empty and holds no dot. *)
Fixpoint plain_keys (tool : ToolNode) : bool :=
  match tool with
  | IsTool _ => true
  | Nested tools =>
      forallb (λ entry, truthy (Some entry.1) && dot_free entry.1 && plain_keys entry.2) tools
  end.

(** The Tools of a tree, depth first, each record in the order in which
    [Object.entries] lists it. *)
Definition toolsOf (tree : ToolTree) : list Tool := map snd (leaves tree).

(** [context] or [metadata] called on registry [rpc]. *)
Definition is_context_on (rpc : loc) (op : Op) : bool :=
  match op with
  | OpContext rpc' _ => bool_decide (rpc' = rpc)
  | _ => false
  end.

Definition is_metadata_on (rpc : loc) (op : Op) : bool :=
  match op with
  | OpMetadata rpc' _ => bool_decide (rpc' = rpc)
  | _ => false
  end.

(** [rpc.tool(description).input(schema).handler(fn)] *)
Definition tool_input_handler (rpc : loc) (description : string) (schema : ZodObject)
    (fn : Args → Completion) : State Tool :=
  b ← tool (RPC_create rpc) description;
  b ← ToolBuilder_input b schema;
  ToolBuilder_handler b fn.

(** [rpc.tool(description).handler(fn)] *)
Definition tool_handler (rpc : loc) (description : string) (fn : Args → Completion)
  : State Tool :=
  b ← tool (RPC_create rpc) description;
  ToolBuilder_handler b fn.

(** * Example programs *)

(** ** The trees of the specification's examples *)

Definition tree_a_bcd (ToolA ToolC ToolD : Tool) : ToolTree :=
  [("a", IsTool ToolA); ("b", Nested [("c", IsTool ToolC); ("d", IsTool ToolD)])].

Definition tree_xyz (ToolZ : Tool) : ToolTree :=
  [("x", Nested [("y", Nested [("z", IsTool ToolZ)])])].

(** A tool to run examples with: a builder reference and a handler that
    answers with its context. *)
Definition echo_ctx (b : loc) : Tool :=
  {| builder := b; fn := λ args, Return (Plain (ctx args)) |}.

(** A builder with a schema, as [rpc.tool("Echo a message")] followed by
    [input(z.object({ message: z.string() }))] leaves it. *)
Definition message_schema : ZodObject := z_object [("message", ZString)].

(** [const b = rpc.tool("Echo a message"); const t = b.handler(fn)]: the
    builder, the tool and the store they leave. *)
Definition echo_builder : loc := eval (tool (RPC_create initRPC) "Echo a message") loaded.
Definition echo_tool : Tool := echo_ctx echo_builder.
Definition echo_world : World :=
  run [OpTool initRPC "Echo a message"; OpHandler echo_builder (fn echo_tool)] loaded.

(** [{ "": { a: Tool } }]: a record under the empty key. *)
Definition tree_empty_key : ToolTree :=
  [("", Nested [("a", IsTool echo_tool)])].

(** A registry with an asynchronous context factory, one tool that answers
    with its context, and a server on which the handler is registered. *)
Definition factory_before : value → Completion :=
  λ _, Return (Promise (Fulfilled (VString "before"))).
Definition factory_after : value → Completion :=
  λ _, Return (Plain (VString "after")).

Definition whoami_tree : ToolTree := [("whoami", IsTool echo_tool)].
Definition whoami_world : World := step (OpContext initRPC factory_before) echo_world.
Definition whoami_handler : Handler := handler (RPC_create initRPC) whoami_tree whoami_world.
Definition whoami_registered : World := step (OpRegister whoami_handler 0) whoami_world.
Definition whoami_callback : Callback := {| cb_rpc := initRPC; cb_tool := echo_tool |}.

(** Two tools whose flattened names collide:
    [{ "a.b": first, a: { b: second } }]. *)
Definition first_builder : loc := eval (tool (RPC_create initRPC) "first") loaded.
Definition second_builder : loc :=
  eval (tool (RPC_create initRPC) "second") (step (OpTool initRPC "first") loaded).
Definition first_tool : Tool := echo_ctx first_builder.
Definition second_tool : Tool := echo_ctx second_builder.
Definition collision_world : World :=
  run [OpTool initRPC "first"; OpTool initRPC "second"] loaded.
Definition collision_tree : ToolTree :=
  [("a.b", IsTool first_tool); ("a", Nested [("b", IsTool second_tool)])].
Definition collision_handler : Handler :=
  handler (RPC_create initRPC) collision_tree collision_world.

(** The example of the specification: a context factory that returns
    [{ userId: "123" }] and a tool whose handler echoes [ctx?.userId]. *)
Definition userId_factory : value → Completion :=
  λ _, Return (Promise (Fulfilled (VObject [("userId", VString "123")]))).
Definition text_content (text : value) : value :=
  VObject [("content", VArray [VObject [("type", VString "text"); ("text", text)]])].
Definition userId_tool : Tool :=
  {| builder := echo_builder;
     fn := λ args, Return (Promise (Fulfilled (text_content (get (ctx args) "userId")))) |}.
Definition userId_world : World := step (OpContext initRPC userId_factory) echo_world.

(** A tool whose handler throws, and one whose handler returns a promise
    that rejects. *)
Definition throwing_tool : Tool :=
  {| builder := echo_builder; fn := λ _, Throw (VString "boom") |}.
Definition rejecting_factory : value → Completion :=
  λ _, Return (Promise (Rejected (VString "denied"))).

(** ** examples/nextjs: [handler.ts]

    [initRPC.context(async ...).create()] followed by [rpc.handler({ echo,
    organisations: { list, get } })].  The bodies of the three handlers do
    not matter for what is registered and are left open. *)
Definition app_context : value → Completion :=
  λ _, Return (Promise (Fulfilled (VObject
    [("db", VObject [("organisations", VArray
        [VObject [("id", VString "1"); ("name", VString "Organisation 1")];
         VObject [("id", VString "2"); ("name", VString "Organisation 2")]])]);
     ("auth", VObject [("userId", VString "123")])]))).

Definition appHandler (echo_fn list_fn get_fn : Args → Completion) : State Handler :=
  registry ← RPC_context initRPC app_context;
  let rpc := RPC_create registry in
  b ← tool rpc "Echo a message";
  b ← ToolBuilder_input b (z_object [("message", ZString)]);
  echo ← ToolBuilder_handler b echo_fn;
  b ← tool rpc "List organisations";
  list ← ToolBuilder_handler b list_fn;
  b ← tool rpc "Get an organisation";
  b ← ToolBuilder_input b (z_object [("id", ZString)]);
  get ← ToolBuilder_handler b get_fn;
  reads (handler rpc [("echo", IsTool echo);
                      ("organisations", Nested [("list", IsTool list); ("get", IsTool get)])]).

(** [route.ts]: [appHandler.register(server)] on the server the adapter
    passes in. *)
Definition route (echo_fn list_fn get_fn : Args → Completion) (server : loc) : State Handler :=
  h ← appHandler echo_fn list_fn get_fn;
  _ ← register h server;
  mret h.

(** [{ a: {}, b: { c: {} } }]: records without a Tool. *)
Definition tree_no_tools : ToolTree :=
  [("a", Nested []); ("b", Nested [("c", Nested [])])].

(** ** The tree object

    [handler(tools)] is handed a reference to a record, and the caller can
    still assign to that record, or to a record nested in it, afterwards.
    A record is kept here with the whole tree below it; whatever is assigned
    or deleted leaves it as some other tree. *)
Record Client := {
  world : World;
  records : gmap loc (list (string * ToolNode));
}.

(** [rpc.handler(tools)], where [tools] refers to the record at [l]. *)
Definition handler_of (rpc l : loc) (c : Client) : Handler :=
  handler (RPC_create rpc) (records c !!! l) (world c).

(** The record at [l] after assignments that leave it as [tree]. *)
Definition assign_record (l : loc) (tree : ToolTree) (c : Client) : Client :=
  {| world := world c; records := <[l := tree]> (records c) |}.

(** [h.register(server)] *)
Definition register_at (h : Handler) (server : loc) (c : Client) : Client :=
  {| world := exec (register h server) (world c); records := records c |}.

(** [register] on server 0, then [input] on the builder, then [register] on
    server 1. *)
Definition whoami_twice : World :=
  exec (register whoami_handler 1)
    (step (OpInput echo_builder message_schema)
       (exec (register whoami_handler 0) whoami_world)).

(** A handler whose promise never settles, and a factory of the same kind. *)
Definition hanging_tool : Tool :=
  {| builder := echo_builder; fn := λ _, Return (Promise Pending) |}.
Definition hanging_factory : value → Completion := λ _, Return (Promise Pending).

(** * Properties *)

(** ** Strings and dotted names *)

Lemma string_app_assoc (a b c : string) : (a +:+ b) +:+ c = a +:+ (b +:+ c).
Proof.
  induction a as [|ch a IH]; [reflexivity|].
  change (String ch ((a +:+ b) +:+ c) = String ch (a +:+ (b +:+ c))).
  by rewrite IH.
Qed.

Lemma truthy_dotted (p name : string) : truthy (Some (p +:+ "." +:+ name)) = true.
Proof. by destruct p. Qed.

Lemma fullNameOf_truthy (p name : string) :
  truthy (Some p) = true → fullNameOf (Some p) name = p +:+ "." +:+ name.
Proof. unfold fullNameOf. by intros ->. Qed.

Lemma join_dot_snoc (path : list string) (name : string) :
  path ≠ [] → join_dot (path ++ [name]) = join_dot path +:+ "." +:+ name.
Proof.
  induction path as [|p path IH]; [done|]. intros _.
  destruct path as [|q path]; [reflexivity|].
  change (p +:+ "." +:+ join_dot ((q :: path) ++ [name])
          = (p +:+ "." +:+ join_dot (q :: path)) +:+ "." +:+ name).
  rewrite IH by done. by rewrite !string_app_assoc.
Qed.

(** ** Induction over a tool tree

    A property of every node follows from the tools and from the records all
    of whose values have it. *)
Lemma ToolNode_nested_ind (P : ToolNode → Prop) :
  (∀ t, P (IsTool t)) →
  (∀ tools, Forall (λ entry, P entry.2) tools → P (Nested tools)) →
  ∀ tool, P tool.
Proof.
  intros P_tool P_nested. fix IH 1. intros [t|tools]; [apply P_tool|].
  apply P_nested. induction tools as [|entry tools IHtools]; constructor.
  - apply IH.
  - exact IHtools.
Qed.

Lemma flat_map_Forall_ext {A B} (f g : A → list B) (l : list A) :
  Forall (λ x, f x = g x) l → flat_map f l = flat_map g l.
Proof. induction 1 as [|x l Hx _ IH]; simpl; [done|]. by rewrite Hx, IH. Qed.

Lemma map_flat_map {A B C} (h : B → C) (f : A → list B) (l : list A) :
  map h (flat_map f l) = flat_map (λ x, map h (f x)) l.
Proof. induction l as [|x l IH]; simpl; [done|]. by rewrite map_app, IH. Qed.

(** ** Flattening below a named record *)

(** Below a path whose dotted name is not empty, [resolveTools] names every
    leaf by its joined path. *)
Lemma resolveEntry_joined (tool : ToolNode) :
  ∀ path : list string,
    path ≠ [] → truthy (Some (join_dot path)) = true →
    resolveEntry (join_dot path) tool
    = map (λ leaf, (join_dot leaf.1, leaf.2)) (leavesOf path tool).
Proof.
  induction tool as [t|tools IH] using ToolNode_nested_ind; intros path Hpath Htruthy.
  - reflexivity.
  - cbn [resolveEntry leavesOf]. rewrite map_flat_map. apply flat_map_Forall_ext.
    eapply Forall_impl; [exact IH|]. intros [name sub] Hsub. cbn [fst snd] in *.
    rewrite fullNameOf_truthy by done.
    rewrite <- join_dot_snoc by done.
    apply Hsub.
    + by destruct path.
    + rewrite join_dot_snoc by done. apply truthy_dotted.
Qed.

Lemma resolveTools_top (tree : ToolTree) :
  resolveTools tree None = flat_map (λ entry, resolveEntry entry.1 entry.2) tree.
Proof. reflexivity. Qed.

Lemma resolveEntry_Nested (fullName : string) (tools : ToolTree) :
  resolveEntry fullName (Nested tools) = resolveTools tools (Some fullName).
Proof. reflexivity. Qed.

(** C1 (amended): for every tool tree in which no nested mapping sits under
    the empty key at the top level, [resolveTools] returns the depth-first,
    pre-order list of (dotted name, Tool) pairs, each name being the keys on
    the path from the root joined with dots.  The tree
    [{ a: ToolA, b: { c: ToolC, d: ToolD } }] resolves to
    [("a", ToolA); ("b.c", ToolC); ("b.d", ToolD)] in that order, and
    [{ x: { y: { z: ToolZ } } }] resolves to [("x.y.z", ToolZ)]. *)
Theorem resolveTools_dotted_paths :
  (∀ tree : ToolTree,
     named_namespaces tree = true → resolveTools tree None = flatten_spec tree)
  ∧ (∀ ToolA ToolC ToolD : Tool,
       resolveTools (tree_a_bcd ToolA ToolC ToolD) None
       = [("a", ToolA); ("b.c", ToolC); ("b.d", ToolD)])
  ∧ (∀ ToolZ : Tool, resolveTools (tree_xyz ToolZ) None = [("x.y.z", ToolZ)]).
Proof.
  split; [|split; reflexivity].
  intros tree Hnamed. rewrite resolveTools_top. unfold flatten_spec, leaves.
  rewrite map_flat_map. apply flat_map_Forall_ext.
  unfold named_namespaces in Hnamed. rewrite forallb_forall in Hnamed.
  apply Forall_forall. intros [name node] Hin. cbn [fst snd].
  destruct node as [t|tools]; [reflexivity|].
  apply list_elem_of_In, Hnamed in Hin. cbn [fst snd] in Hin.
  by apply (resolveEntry_joined (Nested tools) [name]).
Qed.

Lemma resolveTools_dotted_paths_witness :
  named_namespaces (tree_a_bcd echo_tool first_tool second_tool) = true
  ∧ resolveTools (tree_a_bcd echo_tool first_tool second_tool) None
    = flatten_spec (tree_a_bcd echo_tool first_tool second_tool).
Proof.
  split; [reflexivity|].
  apply (proj1 resolveTools_dotted_paths). reflexivity.
Defined.

(** C1 fails as stated: under a record stored at the empty key the parent
    name is falsy, so the key of the record and the dot are left out of the
    name. *)
Lemma resolveTools_empty_key :
  distinct_keys (Nested tree_empty_key) = true
  ∧ resolveTools tree_empty_key None = [("a", echo_tool)]
  ∧ flatten_spec tree_empty_key = [(".a", echo_tool)]
  ∧ resolveTools tree_empty_key None ≠ flatten_spec tree_empty_key.
Proof.
  split; [reflexivity|]. split; [reflexivity|]. split; [reflexivity|].
  intros Heq. discriminate Heq.
Qed.

(** ** Tools and their builders *)

Lemma for_of_builders {A} (xs : list A) (body : A → State unit) (w : World) :
  (∀ x w, builders (exec (body x) w) = builders w) →
  builders (exec (for_of xs body) w) = builders w.
Proof.
  intros Hbody. revert w. induction xs as [|x xs IH]; intros w; [reflexivity|].
  unfold exec in *. cbn [for_of]. unfold mbind, State_bind.
  specialize (Hbody x w). destruct (body x w) as [u w']. cbn [snd] in *.
  by rewrite IH, Hbody.
Qed.

Lemma register_builders (h : Handler) (server : loc) (w : World) :
  builders (exec (register h server) w) = builders w.
Proof. apply for_of_builders. reflexivity. Qed.

(** Every call leaves the builders that exist in place, except that [input]
    rewrites the schema of the builder it is called on. *)
Lemma step_builder (op : Op) (w : World) (b : loc) (tb : ToolBuilder) :
  builders w !! b = Some tb →
  ∃ tb', builders (step op w) !! b = Some tb'
         ∧ description tb' = description tb
         ∧ (is_input_on b op = false → inputSchema tb' = inputSchema tb).
Proof.
  intros Hb. destruct op; cbn [step is_input_on];
    try (exists tb; by rewrite ?register_builders).
  - exists tb. split; [|done]. unfold exec, tool, RPC_create, createToolFactory, new_ToolBuilder.
    cbn. rewrite lookup_insert_ne; [done|].
    intros Heq. pose proof (is_fresh (dom (builders w))) as Hfresh.
    rewrite Heq in Hfresh. apply Hfresh, elem_of_dom. eauto.
  - unfold exec, ToolBuilder_input. cbn.
    destruct (decide (b0 = b)) as [->|Hne].
    + rewrite lookup_insert_eq. eexists. split; [done|]. cbn.
      rewrite lookup_total_alt, Hb. split; [done|].
      rewrite bool_decide_eq_false. done.
    + exists tb. by rewrite lookup_insert_ne.
Qed.

Lemma run_builder (ops : list Op) (w : World) (b : loc) (tb : ToolBuilder) :
  builders w !! b = Some tb →
  ∃ tb', builders (run ops w) !! b = Some tb'
         ∧ description tb' = description tb
         ∧ (forallb (λ op, negb (is_input_on b op)) ops = true
            → inputSchema tb' = inputSchema tb).
Proof.
  revert w tb. induction ops as [|op ops IH]; intros w tb Hb.
  - exists tb. done.
  - destruct (step_builder op w b tb Hb) as (tb1 & Hb1 & Hd1 & Hi1).
    destruct (IH (step op w) tb1 Hb1) as (tb2 & Hb2 & Hd2 & Hi2).
    exists tb2. split; [exact Hb2|]. split; [congruence|].
    cbn [forallb]. intros [Hop Hops]%andb_true_iff.
    rewrite Hi2 by done. apply Hi1. by apply negb_true_iff.
Qed.

(** C2 (amended): for every Tool whose builder exists, no sequence of calls
    to the library changes the description observed on the Tool; the input
    schema observed on the Tool is the one its builder holds, so it stays
    the same across every sequence of calls that does not call [input] on
    the originating builder, and a further [input(schema)] on that builder
    makes the Tool show [schema]. *)
Theorem Tool_observed_through_builder (w : World) (t : Tool) (ops : list Op) :
  is_Some (builders w !! builder t) →
  Tool_description (run ops w) t = Tool_description w t
  ∧ (forallb (λ op, negb (is_input_on (builder t) op)) ops = true
     → Tool_input (run ops w) t = Tool_input w t)
  ∧ (∀ schema, Tool_input (step (OpInput (builder t) schema) (run ops w)) t = Some schema).
Proof.
  intros [tb Hb].
  destruct (run_builder ops w (builder t) tb Hb) as (tb' & Hb' & Hd & Hi).
  unfold Tool_description, Tool_input.
  rewrite !lookup_total_alt, Hb, Hb'. cbn.
  split; [done|]. split; [done|].
  intros schema. unfold exec, ToolBuilder_input. cbn.
  by rewrite lookup_total_alt, lookup_insert_eq.
Qed.

Lemma Tool_observed_through_builder_witness :
  is_Some (builders echo_world !! builder echo_tool)
  ∧ Tool_description (run [OpTool initRPC "List organisations"] echo_world) echo_tool
    = "Echo a message".
Proof.
  assert (is_Some (builders echo_world !! builder echo_tool)) as Hb.
  { vm_compute. eauto. }
  split; [exact Hb|].
  rewrite (proj1 (Tool_observed_through_builder echo_world echo_tool
                    [OpTool initRPC "List organisations"] Hb)).
  reflexivity.
Defined.

(** C2 fails as stated: [input] called on the builder after [handler] has
    returned the Tool changes the schema that the Tool shows. *)
Lemma Tool_input_follows_builder :
  Tool_input echo_world echo_tool = None
  ∧ Tool_input (step (OpInput echo_builder message_schema) echo_world) echo_tool
    = Some message_schema
  ∧ Tool_input (step (OpInput echo_builder message_schema) echo_world) echo_tool
    ≠ Tool_input echo_world echo_tool.
Proof.
  assert (Tool_input echo_world echo_tool = None) as H0 by (vm_compute; reflexivity).
  assert (Tool_input (step (OpInput echo_builder message_schema) echo_world) echo_tool
          = Some message_schema) as H1 by (vm_compute; reflexivity).
  split; [exact H0|]. split; [exact H1|].
  rewrite H0, H1. discriminate.
Qed.

(** ** Registration *)

Lemma exec_bind {A B} (m : State A) (k : A → State B) (w : World) :
  exec (m ≫= k) w = exec (k (eval m w)) (exec m w).
Proof. unfold exec, eval, mbind, State_bind. by destruct (m w). Qed.

Lemma for_of_server_tool (rpc server : loc) (entries : list (string * Tool)) :
  ∀ w : World,
    let w' := exec (for_of entries (λ entry w,
                 server_tool server entry.1 (Tool_description w entry.2)
                   (Tool_input w entry.2) {| cb_rpc := rpc; cb_tool := entry.2 |} w)) w in
    builders w' = builders w
    ∧ rpcs w' = rpcs w
    ∧ servers w' !!! server = (servers w !!! server) ++ map (row rpc w) entries
    ∧ (∀ other, other ≠ server → servers w' !! other = servers w !! other).
Proof.
  induction entries as [|entry entries IH]; intros w.
  - cbn. by rewrite app_nil_r.
  - cbn zeta in *. cbn [for_of]. rewrite exec_bind.
    match goal with |- context [exec (for_of entries ?body) ?w1] =>
      destruct (IH w1) as (Hb & Hr & Hs & Ho); set (w2 := exec (for_of entries body) w1) in *
    end.
    rewrite Hb, Hr, Hs. unfold exec, server_tool.
    cbn [builders rpcs servers set_servers snd].
    repeat split.
    + rewrite lookup_total_insert_eq. rewrite <- app_assoc. reflexivity.
    + intros other Hother. rewrite Ho by done. unfold exec, server_tool.
      cbn [servers set_servers snd]. by rewrite lookup_insert_ne.
Qed.

(** [register] appends its rows to the table of the server it is given and
    touches nothing else. *)
Lemma register_effect (h : Handler) (server : loc) (w : World) :
  builders (exec (register h server) w) = builders w
  ∧ rpcs (exec (register h server) w) = rpcs w
  ∧ servers (exec (register h server) w) !!! server
    = (servers w !!! server) ++ installed h w
  ∧ (∀ other, other ≠ server →
       servers (exec (register h server) w) !! other = servers w !! other).
Proof. apply (for_of_server_tool (handler_rpc h) server (_tools h) w). Qed.

(** ** The context factory is read when a callback runs *)

Lemma callback_run_after_context (w : World) (cb : Callback) (f : value → Completion)
    (input authInfo : value) :
  callback_run (exec (RPC_context (cb_rpc cb) f) w) cb input authInfo
  = callback_body (Some f) (cb_tool cb) input authInfo.
Proof.
  unfold callback_run, exec, RPC_context. cbn [snd rpcs set_rpcs].
  by rewrite lookup_total_insert_eq.
Qed.

Lemma installed_cb_rpc (h : Handler) (w : World) (rt : RegisteredTool) :
  rt ∈ installed h w → cb_rpc (rt_callback rt) = handler_rpc h.
Proof.
  unfold installed. intros (entry & -> & _)%list_elem_of_fmap. reflexivity.
Qed.

(** C3 (amended): for every registry, setting a new context factory after
    [create()] affects every callback that runs afterwards: the callbacks of
    handlers created after the mutation, and equally the callbacks of
    handlers that were registered against a server before it.  A callback
    uses the context factory that is current when it is invoked. *)
Theorem context_factory_read_at_invocation
    (w : World) (rpc : loc) (tree tree' : ToolTree) (server server' : loc)
    (f : value → Completion) (rt rt' : RegisteredTool) (input authInfo : value) :
  let h := handler (RPC_create rpc) tree w in
  let registered := exec (register h server) w in
  let mutated := exec (RPC_context rpc f) registered in
  let h' := handler (RPC_create rpc) tree' mutated in
  let registered' := exec (register h' server') mutated in
  rt ∈ installed h w →
  rt' ∈ installed h' mutated →
  callback_run mutated (rt_callback rt) input authInfo
  = callback_body (Some f) (cb_tool (rt_callback rt)) input authInfo
  ∧ callback_run registered' (rt_callback rt') input authInfo
    = callback_body (Some f) (cb_tool (rt_callback rt')) input authInfo.
Proof.
  intros h registered mutated h' registered' Hrt Hrt'.
  apply installed_cb_rpc in Hrt, Hrt'.
  change (handler_rpc h) with rpc in Hrt. change (handler_rpc h') with rpc in Hrt'.
  split.
  - subst mutated. rewrite <- Hrt. apply callback_run_after_context.
  - unfold callback_run. subst registered'.
    destruct (register_effect h' server' mutated) as (_ & -> & _).
    subst mutated. rewrite <- Hrt' at 1. apply callback_run_after_context.
Qed.

Lemma context_factory_read_at_invocation_witness :
  callback_run (exec (RPC_context initRPC factory_after) whoami_registered)
    whoami_callback (VString "in") VNull
  = ([CallCreateContext VNull; CallFn {| ctx := VString "after"; input := VString "in" |}],
     Fulfilled (VString "after")).
Proof.
  assert (row initRPC whoami_world ("whoami", echo_tool)
          ∈ installed (handler (RPC_create initRPC) whoami_tree whoami_world) whoami_world)
    as Hrt by (apply list_elem_of_here).
  exact (proj1 (context_factory_read_at_invocation whoami_world initRPC whoami_tree
                  whoami_tree 0 1 factory_after _ _ (VString "in") VNull Hrt Hrt)).
Defined.

(** C3 fails as stated: a callback registered while [factory_before] was
    current answers with the context of [factory_after] once the registry
    has been given that factory. *)
Lemma registered_callback_sees_new_factory :
  map rt_callback (servers whoami_registered !!! 0) = [whoami_callback]
  ∧ (callback_run whoami_registered whoami_callback (VString "in") VNull).2
    = Fulfilled (VString "before")
  ∧ (callback_run (step (OpContext initRPC factory_after) whoami_registered)
       whoami_callback (VString "in") VNull).2
    = Fulfilled (VString "after")
  ∧ callback_run (step (OpContext initRPC factory_after) whoami_registered)
      whoami_callback (VString "in") VNull
    ≠ callback_run whoami_registered whoami_callback (VString "in") VNull.
Proof.
  assert ((callback_run whoami_registered whoami_callback (VString "in") VNull).2
          = Fulfilled (VString "before")) as Hbefore by (vm_compute; reflexivity).
  assert ((callback_run (step (OpContext initRPC factory_after) whoami_registered)
             whoami_callback (VString "in") VNull).2
          = Fulfilled (VString "after")) as Hafter by (vm_compute; reflexivity).
  split; [vm_compute; reflexivity|]. split; [exact Hbefore|]. split; [exact Hafter|].
  intros Heq. rewrite Heq, Hbefore in Hafter. discriminate Hafter.
Qed.

(** ** [Object.fromEntries] *)

Section fromEntries.
Context {V : Type}.
Implicit Types (entries : list (string * V)) (o : gmap string V).

Lemma write_all_cons entry entries o :
  write_all (entry :: entries) o = write_all entries (<[entry.1 := entry.2]> o).
Proof. reflexivity. Qed.

Lemma write_all_app entries1 entries2 o :
  write_all (entries1 ++ entries2) o = write_all entries2 (write_all entries1 o).
Proof. apply fold_left_app. Qed.

Lemma write_all_absent entries o (k : string) :
  k ∉ map fst entries → write_all entries o !! k = o !! k.
Proof.
  revert o. induction entries as [|[k' v] entries IH]; intros o Hk; [done|].
  rewrite write_all_cons, IH by set_solver. apply lookup_insert_ne. set_solver.
Qed.

(** The last entry written under a key is the one that stays. *)
Lemma write_all_last entries1 entries2 o (k : string) (v : V) :
  k ∉ map fst entries2 →
  write_all (entries1 ++ (k, v) :: entries2) o !! k = Some v.
Proof.
  intros Hk. rewrite write_all_app, write_all_cons, write_all_absent by done.
  apply lookup_insert_eq.
Qed.

Lemma write_all_dom entries o (k : string) :
  is_Some (write_all entries o !! k) ↔ k ∈ map fst entries ∨ is_Some (o !! k).
Proof.
  revert o. induction entries as [|[k' v] entries IH]; intros o.
  - cbn. set_solver.
  - rewrite write_all_cons, IH. cbn [map fst snd]. rewrite elem_of_cons.
    destruct (decide (k' = k)) as [->|Hne].
    + rewrite lookup_insert_eq. naive_solver.
    + rewrite lookup_insert_ne by done. naive_solver.
Qed.

Lemma write_all_from entries o (k : string) (v : V) :
  write_all entries o !! k = Some v → (k, v) ∈ entries ∨ o !! k = Some v.
Proof.
  revert o. induction entries as [|[k' v'] entries IH]; intros o; [by right|].
  rewrite write_all_cons.
  intros [Hin|Ho]%IH; [left; by right|]. cbn [fst snd] in Ho.
  destruct (decide (k' = k)) as [->|Hne].
  - rewrite lookup_insert_eq in Ho. injection Ho as ->. left. by left.
  - rewrite lookup_insert_ne in Ho by done. by right.
Qed.

Lemma write_all_size entries o :
  size (write_all entries o) ≤ size o + length entries.
Proof.
  revert o. induction entries as [|[k v] entries IH]; intros o.
  - cbn. lia.
  - rewrite write_all_cons. etrans; [apply IH|]. cbn [fst snd length].
    destruct (o !! k) as [x|] eqn:Hk.
    + rewrite map_size_insert_Some by eauto. lia.
    + rewrite map_size_insert_None by done. lia.
Qed.

(** A key written a second time does not add a property. *)
Lemma write_all_size_repeat entries o (i j : nat) (k : string) (v1 v2 : V) :
  i < j → entries !! i = Some (k, v1) → entries !! j = Some (k, v2) →
  size (write_all entries o) < size o + length entries.
Proof.
  intros Hij Hi Hj.
  rewrite <- (take_drop_middle entries j (k, v2) Hj).
  rewrite write_all_app, write_all_cons. cbn [fst snd].
  pose proof (write_all_size (drop (S j) entries)
                (<[k:=v2]> (write_all (take j entries) o))) as Hrest.
  rewrite map_size_insert_Some in Hrest.
  2:{ apply write_all_dom. left. apply list_elem_of_fmap. exists (k, v1). split; [done|].
      apply list_elem_of_lookup. exists i. rewrite lookup_take_lt by done. done. }
  pose proof (write_all_size (take j entries) o) as Htake.
  rewrite length_app. cbn [length]. lia.
Qed.

Lemma fromEntries_write_all entries : fromEntries entries = write_all entries ∅.
Proof. reflexivity. Qed.
End fromEntries.

(** ** The tools summary *)

Lemma createTools_lookup_last (w : World) (flat : list (string * Tool))
    (i : nat) (name : string) (t : Tool) :
  flat !! i = Some (name, t) →
  (∀ j later, i < j → flat !! j = Some later → later.1 ≠ name) →
  createTools w flat !! name = Some (summaryOf w t).
Proof.
  intros Hi Hlast. unfold createTools. rewrite fromEntries_write_all.
  rewrite <- (take_drop_middle flat i (name, t) Hi), map_app. cbn [map fst snd].
  apply write_all_last. rewrite map_map. cbn [fst].
  intros ([name' t'] & Hname & [k Hk]%list_elem_of_lookup)%list_elem_of_fmap.
  cbn [fst] in Hname. subst name'.
  rewrite lookup_drop in Hk. by apply (Hlast (S i + k) (name, t')); [lia|..].
Qed.

(** C4 (amended): for every Handler created from a tool tree, its tools
    summary contains exactly the dotted names produced by flattening that
    tree and no other key, and maps each such name to an object holding only
    a description (no schema, no handler function): the description of the
    Tool that the flattening pairs with that name, and of the last such Tool
    in resolution order when several pairs share the name. *)
Theorem tools_summary (w : World) (rpc : loc) (tree : ToolTree) (name : string) :
  let h := handler (RPC_create rpc) tree w in
  let flat := resolveTools tree None in
  (is_Some (tools h !! name) ↔ name ∈ map fst flat)
  ∧ (∀ v, tools h !! name = Some v →
          ∃ t, (name, t) ∈ flat
               ∧ v = VObject [("description", VString (Tool_description w t))])
  ∧ (∀ i t, flat !! i = Some (name, t) →
            (∀ j later, i < j → flat !! j = Some later → later.1 ≠ name) →
            tools h !! name
            = Some (VObject [("description", VString (Tool_description w t))])).
Proof.
  intros h flat. cbn [h handler RPC_create createHandlerFactory tools]. fold flat.
  split; [|split].
  - unfold createTools. rewrite fromEntries_write_all, write_all_dom, map_map.
    cbn [fst]. rewrite lookup_empty. split; [intros [?|[? ?]]; done | by left].
  - intros v Hv. unfold createTools in Hv. rewrite fromEntries_write_all in Hv.
    apply write_all_from in Hv as [Hin|Hempty]; [|by rewrite lookup_empty in Hempty].
    apply list_elem_of_fmap in Hin as ([name' t] & Heq & Hin).
    cbn [fst snd] in Heq. injection Heq as -> ->. by exists t.
  - intros i t Hi Hlast. by apply (createTools_lookup_last w flat i name t).
Qed.

Lemma tools_summary_witness :
  tools (handler (RPC_create initRPC) collision_tree collision_world) !! "a.b"
  = Some (VObject [("description", VString "second")]).
Proof.
  apply (proj2 (proj2 (tools_summary collision_world initRPC collision_tree "a.b"))
           1 second_tool).
  - reflexivity.
  - intros j later Hj Hlater. destruct j as [|[|j]]; [lia|lia|discriminate Hlater].
Defined.

(** C4 fails as stated: the flattening pairs ["a.b"] with the tool described
    as ["first"], but the summary maps ["a.b"] to another description. *)
Lemma tools_summary_collision :
  distinct_keys (Nested collision_tree) = true
  ∧ resolveTools collision_tree None = [("a.b", first_tool); ("a.b", second_tool)]
  ∧ Tool_description collision_world first_tool = "first"
  ∧ tools collision_handler !! "a.b" = Some (VObject [("description", VString "second")])
  ∧ tools collision_handler !! "a.b"
    ≠ Some (VObject [("description",
                      VString (Tool_description collision_world first_tool))]).
Proof.
  assert (tools collision_handler !! "a.b"
          = Some (VObject [("description", VString "second")])) as Hsecond
    by (vm_compute; reflexivity).
  split; [vm_compute; reflexivity|]. split; [reflexivity|].
  split; [vm_compute; reflexivity|]. split; [exact Hsecond|].
  rewrite Hsecond. vm_compute. discriminate.
Qed.

(** ** Running a registered callback *)

Lemma observe_async_return (c : Completion) : observe (async_return c) = await c.
Proof. by destruct c as [[v|[v|e|]]|e]. Qed.

Lemma fails_with_await (c : Completion) (e : value) : fails_with c e ↔ await c = Raised e.
Proof.
  unfold fails_with. split.
  - by intros [-> | ->].
  - destruct c as [[v|[v|e'|]]|e']; cbn; intros Heq; simplify_eq; auto.
Qed.

Lemma fails_with_async_return (c : Completion) (e : value) :
  fails_with c e ↔ async_return c = Rejected e.
Proof.
  unfold fails_with. split.
  - by intros [-> | ->].
  - destruct c as [[v|[v|e'|]]|e']; cbn; intros Heq; simplify_eq; auto.
Qed.

(** C5: [register(server)] installs, for every flattened (name, Tool) pair
    and in resolution order, exactly one callback on the server, keyed by
    the name, the Tool's description and its input schema.  When such a
    callback is later invoked with an input and authentication info, it
    first evaluates the registry's current context factory on the
    authentication info (awaiting its result), then invokes the Tool's
    handler with that context and the input, and hands the handler's result
    to the server unchanged. *)
Theorem register_installs_callbacks
    (created w : World) (rpc : loc) (tree : ToolTree) (server : loc) :
  let h := handler (RPC_create rpc) tree created in
  let flat := resolveTools tree None in
  let table := servers (exec (register h server) w) !!! server in
  table = (servers w !!! server) ++ map (row rpc w) flat
  ∧ (∀ i entry, flat !! i = Some entry →
       table !! (length (servers w !!! server) + i)
       = Some {| rt_name := entry.1;
                 rt_description := Tool_description w entry.2;
                 rt_inputSchema := Tool_input w entry.2;
                 rt_callback := {| cb_rpc := rpc; cb_tool := entry.2 |} |})
  ∧ (∀ (later : World) entry f (input authInfo context : value),
       entry ∈ flat →
       createContext (rpcs later !!! rpc) = Some f →
       await (f authInfo) = Got context →
       let args := {| ctx := context; input := input |} in
       let outcome := callback_run later {| cb_rpc := rpc; cb_tool := entry.2 |}
                        input authInfo in
       outcome = ([CallCreateContext authInfo; CallFn args], async_return (fn entry.2 args))
       ∧ observe outcome.2 = await (fn entry.2 args)).
Proof.
  intros h flat table.
  assert (table = (servers w !!! server) ++ map (row rpc w) flat) as Htable.
  { subst table. by destruct (register_effect h server w) as (_ & _ & -> & _). }
  split; [exact Htable|]. split.
  - intros i entry Hi. rewrite Htable, lookup_app_r by lia.
    replace (length (servers w !!! server) + i - length (servers w !!! server)) with i by lia.
    by rewrite list_lookup_fmap, Hi.
  - intros later entry f input0 authInfo context _ Hf Hawait args outcome.
    subst outcome. unfold callback_run, callback_body. cbn [cb_rpc cb_tool].
    rewrite Hf, Hawait. cbn [app snd]. split; [reflexivity|].
    apply observe_async_return.
Qed.

Lemma register_installs_callbacks_witness :
  callback_run userId_world {| cb_rpc := initRPC; cb_tool := userId_tool |} VNull VNull
  = ([CallCreateContext VNull;
      CallFn {| ctx := VObject [("userId", VString "123")]; input := VNull |}],
     Fulfilled (text_content (VString "123"))).
Proof.
  refine (proj1 (proj2 (proj2 (register_installs_callbacks userId_world userId_world initRPC
                  [("whoami", IsTool userId_tool)] 0))
           userId_world ("whoami", userId_tool) userId_factory VNull VNull
           (VObject [("userId", VString "123")]) _ _ _)).
  - apply list_elem_of_here.
  - vm_compute. reflexivity.
  - reflexivity.
Defined.

(** Context propagation, for any input. *)
Lemma context_propagation (input authInfo : value) :
  (callback_run userId_world {| cb_rpc := initRPC; cb_tool := userId_tool |}
     input authInfo).2
  = Fulfilled (text_content (VString "123")).
Proof.
  unfold callback_run.
  replace (createContext (rpcs userId_world !!! initRPC)) with (Some userId_factory)
    by (vm_compute; reflexivity).
  reflexivity.
Qed.

(** C6: if no context factory is configured on the registry when a
    registered callback is invoked, the context delivered to the tool's
    handler is [undefined], the handler is still invoked with the given
    input, and this layer raises no error for the missing factory: the
    callback fails only if the handler does. *)
Theorem callback_without_context_factory
    (w : World) (cb : Callback) (input authInfo : value) :
  createContext (rpcs w !!! cb_rpc cb) = None →
  let args := {| ctx := VUndefined; input := input |} in
  callback_run w cb input authInfo = ([CallFn args], async_return (fn (cb_tool cb) args))
  ∧ (∀ e, (callback_run w cb input authInfo).2 = Rejected e →
          fails_with (fn (cb_tool cb) args) e).
Proof.
  intros Hnone args. unfold callback_run, callback_body. rewrite Hnone. cbn [app snd].
  split; [reflexivity|]. intros e. apply fails_with_async_return.
Qed.

Lemma callback_without_context_factory_witness :
  createContext (rpcs echo_world !!! cb_rpc whoami_callback) = None
  ∧ callback_run echo_world whoami_callback (VString "in") VNull
    = ([CallFn {| ctx := VUndefined; input := VString "in" |}], Fulfilled VUndefined).
Proof.
  assert (createContext (rpcs echo_world !!! cb_rpc whoami_callback) = None) as Hnone
    by (vm_compute; reflexivity).
  split; [exact Hnone|].
  exact (proj1 (callback_without_context_factory echo_world whoami_callback
                  (VString "in") VNull Hnone)).
Defined.

(** C7: any failure raised by the context factory or by the tool's handler
    during an invocation comes out of the callback unchanged, and the
    callback fails with nothing else: this layer translates no error and
    adds none of its own. *)
Theorem failures_pass_through
    (w : World) (cb : Callback) (input authInfo e : value) :
  let factory := createContext (rpcs w !!! cb_rpc cb) in
  let outcome := callback_run w cb input authInfo in
  (∀ f, factory = Some f → fails_with (f authInfo) e →
        outcome = ([CallCreateContext authInfo], Rejected e))
  ∧ (∀ context,
       factory = None ∧ context = VUndefined
       ∨ (∃ f, factory = Some f ∧ await (f authInfo) = Got context) →
       fails_with (fn (cb_tool cb) {| ctx := context; input := input |}) e →
       outcome.2 = Rejected e)
  ∧ (outcome.2 = Rejected e →
       (∃ f, factory = Some f ∧ fails_with (f authInfo) e)
       ∨ (∃ context, fails_with (fn (cb_tool cb) {| ctx := context; input := input |}) e)).
Proof.
  intros factory outcome. subst outcome. unfold callback_run, callback_body. fold factory.
  split; [|split].
  - intros f -> Hfails%fails_with_await. by rewrite Hfails.
  - intros context [[-> ->]|(f & -> & ->)] Hfails%fails_with_async_return; cbn [snd]; done.
  - destruct factory as [f|].
    + destruct (await (f authInfo)) as [context|e'|] eqn:Hawait; cbn [snd].
      * intros Hrej%fails_with_async_return. right. by exists context.
      * intros [= ->]. left. exists f. split; [done|]. by apply fails_with_await.
      * discriminate.
    + cbn [snd]. intros Hrej%fails_with_async_return. right. by exists VUndefined.
Qed.

Lemma failures_pass_through_witness :
  (callback_run echo_world {| cb_rpc := initRPC; cb_tool := throwing_tool |} VNull VNull).2
  = Rejected (VString "boom")
  ∧ callback_run (step (OpContext initRPC rejecting_factory) echo_world)
      whoami_callback VNull VNull
    = ([CallCreateContext VNull], Rejected (VString "denied")).
Proof.
  split.
  - apply (proj1 (proj2 (failures_pass_through echo_world
                    {| cb_rpc := initRPC; cb_tool := throwing_tool |} VNull VNull
                    (VString "boom"))) VUndefined).
    + left. split; [vm_compute; reflexivity | reflexivity].
    + left. reflexivity.
  - apply (proj1 (failures_pass_through (step (OpContext initRPC rejecting_factory) echo_world)
                    whoami_callback VNull VNull (VString "denied")) rejecting_factory).
    + vm_compute. reflexivity.
    + right. reflexivity.
Defined.

(** ** The registry *)

(** C8: [context(fn)] sets [fn] as the context factory of the registry,
    whatever was set before, and returns the registry itself;
    [metadata(map)] replaces the metadata of the registry by [map] and
    returns the registry itself.  Neither touches the other field, another
    registry, a builder or a server. *)
Theorem RPC_context_and_metadata
    (w : World) (this : loc) (f g : value → Completion) (m : gmap string value) :
  let after_context := exec (RPC_context this f) w in
  let after_metadata := exec (RPC_metadata this m) w in
  (eval (RPC_context this f) w = this
   ∧ createContext (rpcs after_context !!! this) = Some f
   ∧ createContext (rpcs (exec (RPC_context this f) (exec (RPC_context this g) w)) !!! this)
     = Some f
   ∧ _metadata (rpcs after_context !!! this) = _metadata (rpcs w !!! this))
  ∧ (eval (RPC_metadata this m) w = this
     ∧ _metadata (rpcs after_metadata !!! this) = m
     ∧ createContext (rpcs after_metadata !!! this) = createContext (rpcs w !!! this))
  ∧ (∀ other, other ≠ this →
       rpcs after_context !! other = rpcs w !! other
       ∧ rpcs after_metadata !! other = rpcs w !! other)
  ∧ builders after_context = builders w ∧ servers after_context = servers w
  ∧ builders after_metadata = builders w ∧ servers after_metadata = servers w.
Proof.
  intros after_context after_metadata. subst after_context after_metadata.
  unfold exec, eval, RPC_context, RPC_metadata. cbn [fst snd rpcs set_rpcs builders servers].
  rewrite !lookup_total_insert_eq. cbn.
  repeat split; try reflexivity; by rewrite lookup_insert_ne.
Qed.

(** ** Registering one handler several times *)

Lemma installed_same_builders (h : Handler) (w w' : World) :
  builders w' = builders w → installed h w' = installed h w.
Proof.
  intros Hb. unfold installed. apply map_ext. intros entry.
  unfold row, Tool_description, Tool_input. by rewrite Hb.
Qed.

Lemma row_same_builders (rpc : loc) (w w' : World) (entry : string * Tool) :
  builders w' = builders w → row rpc w' entry = row rpc w entry.
Proof. intros Hb. unfold row, Tool_description, Tool_input. by rewrite Hb. Qed.

(** Across any calls, the row of a Tool keeps its name, its callback and
    its description, and also its schema unless [input] was called on the
    builder of the Tool. *)
Lemma row_after_run (rpc : loc) (w : World) (ops : list Op) (entry : string * Tool) :
  is_Some (builders w !! builder entry.2) →
  rt_name (row rpc (run ops w) entry) = rt_name (row rpc w entry)
  ∧ rt_callback (row rpc (run ops w) entry) = rt_callback (row rpc w entry)
  ∧ rt_description (row rpc (run ops w) entry) = rt_description (row rpc w entry)
  ∧ (forallb (λ op, negb (is_input_on (builder entry.2) op)) ops = true →
     row rpc (run ops w) entry = row rpc w entry).
Proof.
  intros [tb Hb].
  destruct (run_builder ops w (builder entry.2) tb Hb) as (tb' & Hb' & Hd & Hi).
  unfold row, Tool_description, Tool_input. cbn [rt_name rt_callback rt_description].
  rewrite !lookup_total_alt, Hb, Hb'. cbn.
  split; [done|]. split; [done|]. split; [done|].
  intros Hops. by rewrite Hd, Hi.
Qed.

(** C9 (amended): the tree is flattened when the Handler is created and
    [register] works from the list kept since then, so assignments made to
    the tree object afterwards do not reach an existing Handler.  Invoked on
    two distinct servers, with any calls to the library in between, each
    call adds to its own server one row per pair of that list, in
    resolution order, with the same names, the same callbacks and the same
    descriptions; the schema of a row is the one the builder of its Tool
    holds when that call runs, so the two calls install the same row unless
    [input] was called on that builder in between.  A call touches only the
    table of the server it is given, and what it adds there does not depend
    on the table of another server. *)
Theorem register_on_two_servers
    (created w : World) (rpc : loc) (tree : ToolTree) (s1 s2 : loc) (ops : list Op)
    (table : list RegisteredTool) :
  s1 ≠ s2 →
  Forall (λ entry, is_Some (builders w !! builder entry.2)) (resolveTools tree None) →
  let h := handler (RPC_create rpc) tree created in
  let flat := resolveTools tree None in
  let w1 := exec (register h s1) w in
  let between := run ops w1 in
  let w2 := exec (register h s2) between in
  let rows1 := map (row rpc w) flat in
  let rows2 := map (row rpc between) flat in
  (servers w1 !!! s1 = (servers w !!! s1) ++ rows1
   ∧ servers w2 !!! s2 = (servers between !!! s2) ++ rows2)
  ∧ (map rt_name rows2 = map rt_name rows1
     ∧ map rt_callback rows2 = map rt_callback rows1
     ∧ map rt_description rows2 = map rt_description rows1)
  ∧ (∀ i entry, flat !! i = Some entry →
       forallb (λ op, negb (is_input_on (builder entry.2) op)) ops = true →
       rows2 !! i = rows1 !! i)
  ∧ (servers w1 !! s2 = servers w !! s2
     ∧ servers w2 !! s1 = servers between !! s1
     ∧ builders w2 = builders between ∧ rpcs w2 = rpcs between)
  ∧ servers (exec (register h s2) (set_servers <[s1 := table]> between)) !!! s2
    = (servers between !!! s2) ++ rows2
  ∧ (∀ (c : Client) (l : loc) (changed : ToolTree),
       servers (world (register_at (handler_of rpc l c) s1 (assign_record l changed c))) !!! s1
       = (servers (world c) !!! s1) ++ map (row rpc (world c)) (resolveTools (records c !!! l) None)
       ∧ _tools (handler_of rpc l (assign_record l changed c)) = resolveTools changed None).
Proof.
  intros Hne Hbuilders h flat w1 between w2 rows1 rows2.
  destruct (register_effect h s1 w) as (Hb1 & Hr1 & Hs1 & Ho1).
  destruct (register_effect h s2 between) as (Hb2 & Hr2 & Hs2 & Ho2).
  fold w1 in Hb1, Hr1, Hs1, Ho1. fold w2 in Hb2, Hr2, Hs2, Ho2.
  assert (∀ entry, entry ∈ flat →
            rt_name (row rpc between entry) = rt_name (row rpc w entry)
            ∧ rt_callback (row rpc between entry) = rt_callback (row rpc w entry)
            ∧ rt_description (row rpc between entry) = rt_description (row rpc w entry)
            ∧ (forallb (λ op, negb (is_input_on (builder entry.2) op)) ops = true →
               row rpc between entry = row rpc w entry)) as Hrows.
  { intros entry Hentry. rewrite <- (row_same_builders rpc w w1 entry Hb1).
    apply row_after_run. rewrite Hb1. rewrite Forall_forall in Hbuilders.
    by apply Hbuilders. }
  split; [split; [exact Hs1|exact Hs2]|].
  split.
  { subst rows1 rows2. rewrite !map_map.
    repeat split; apply map_ext_in; intros entry Hentry%list_elem_of_In;
      by destruct (Hrows entry Hentry) as (? & ? & ? & _). }
  split.
  { intros i entry Hi Hops. subst rows1 rows2. rewrite !list_lookup_fmap, Hi. cbn.
    f_equal. apply (Hrows entry); [|done]. apply list_elem_of_lookup. by exists i. }
  split; [repeat split; [by apply Ho1|by apply Ho2|exact Hb2|exact Hr2]|].
  split.
  { destruct (register_effect h s2 (set_servers <[s1 := table]> between))
      as (_ & _ & -> & _).
    cbn [servers set_servers]. rewrite lookup_total_insert_ne by done.
    reflexivity. }
  intros c l changed. split.
  - unfold register_at, assign_record, handler_of. cbn [world records].
    by destruct (register_effect (handler (RPC_create rpc) (records c !!! l) (world c))
                   s1 (world c)) as (_ & _ & -> & _).
  - unfold handler_of, assign_record. cbn [world records handler RPC_create
      createHandlerFactory _tools]. by rewrite lookup_total_insert_eq.
Qed.

Lemma register_on_two_servers_witness :
  0 ≠ 1
  ∧ Forall (λ entry, is_Some (builders whoami_world !! builder entry.2))
      (resolveTools whoami_tree None)
  ∧ map rt_description
      (map (row initRPC (run [OpInput echo_builder message_schema; OpTool initRPC "other"]
                           (exec (register whoami_handler 0) whoami_world)))
         (resolveTools whoami_tree None))
    = map rt_description (map (row initRPC whoami_world) (resolveTools whoami_tree None)).
Proof.
  assert (0 ≠ 1) as Hne by lia.
  assert (Forall (λ entry, is_Some (builders whoami_world !! builder entry.2))
            (resolveTools whoami_tree None)) as Hbuilders.
  { apply Forall_cons. split; [|apply Forall_nil_2]. vm_compute. eauto. }
  split; [exact Hne|]. split; [exact Hbuilders|].
  pose proof (register_on_two_servers whoami_world whoami_world initRPC whoami_tree 0 1
                [OpInput echo_builder message_schema; OpTool initRPC "other"] []
                Hne Hbuilders) as (_ & (_ & _ & Hdescriptions) & _).
  exact Hdescriptions.
Defined.

(** C9 fails as stated: with [input] called on the builder between the two
    calls, [register] installs a row without a schema on the first server
    and a row with the new schema on the second. *)
Lemma register_after_input_differs :
  map rt_inputSchema (servers whoami_twice !!! 0) = [None]
  ∧ map rt_inputSchema (servers whoami_twice !!! 1) = [Some message_schema]
  ∧ map (λ rt, (rt_name rt, rt_description rt, rt_inputSchema rt)) (servers whoami_twice !!! 1)
    ≠ map (λ rt, (rt_name rt, rt_description rt, rt_inputSchema rt)) (servers whoami_twice !!! 0).
Proof.
  split; [vm_compute; reflexivity|]. split; [vm_compute; reflexivity|].
  vm_compute. discriminate.
Qed.

(** ** Colliding names *)

(** C10: if flattening a tool tree yields two pairs with the same dotted
    name, [register] still installs both callbacks on the server, in
    resolution order, but the tools summary of the Handler holds that name
    only once, so it has fewer keys than there are callbacks, and maps it to
    the description of the later pair (the last one with that name). *)
Theorem colliding_names
    (w : World) (rpc : loc) (tree : ToolTree) (server : loc)
    (i j : nat) (name : string) (t1 t2 : Tool) :
  let h := handler (RPC_create rpc) tree w in
  let flat := resolveTools tree None in
  let before := servers w !!! server in
  let table := servers (exec (register h server) w) !!! server in
  i < j →
  flat !! i = Some (name, t1) →
  flat !! j = Some (name, t2) →
  (∀ k later, j < k → flat !! k = Some later → later.1 ≠ name) →
  length table = length before + length flat
  ∧ table !! (length before + i) = Some (row rpc w (name, t1))
  ∧ table !! (length before + j) = Some (row rpc w (name, t2))
  ∧ tools h !! name = Some (VObject [("description", VString (Tool_description w t2))])
  ∧ size (tools h) < length flat.
Proof.
  intros h flat before table Hij Hi Hj Hlast.
  assert (table = before ++ map (row rpc w) flat) as ->.
  { subst table before. by destruct (register_effect h server w) as (_ & _ & -> & _). }
  assert (∀ k entry, flat !! k = Some entry →
            (before ++ map (row rpc w) flat) !! (length before + k) = Some (row rpc w entry))
    as Hrow.
  { intros k entry Hk. rewrite lookup_app_r by lia.
    replace (length before + k - length before) with k by lia.
    by rewrite list_lookup_fmap, Hk. }
  split; [by rewrite length_app, length_map|].
  split; [by apply Hrow|]. split; [by apply Hrow|]. split.
  - by apply (createTools_lookup_last w flat j name t2).
  - cbn [h handler RPC_create createHandlerFactory tools]. fold flat.
    unfold createTools. rewrite fromEntries_write_all.
    pose proof (write_all_size_repeat
                  (map (λ entry, (entry.1, summaryOf w entry.2)) flat) ∅ i j name
                  (summaryOf w t1) (summaryOf w t2) Hij) as Hsize.
    rewrite !list_lookup_fmap, Hi, Hj, length_map, map_size_empty in Hsize.
    by apply Hsize.
Qed.

Lemma colliding_names_witness :
  map rt_description (servers (exec (register collision_handler 0) collision_world) !!! 0)
  = ["first"; "second"]
  ∧ tools collision_handler !! "a.b" = Some (VObject [("description", VString "second")])
  ∧ size (tools collision_handler) < 2.
Proof.
  assert (0 < 1) as Hij by lia.
  destruct (colliding_names collision_world initRPC collision_tree 0 0 1 "a.b"
              first_tool second_tool Hij eq_refl eq_refl) as (_ & _ & _ & Hsummary & Hsize).
  { intros k later Hk Hlater. destruct k as [|[|k]]; [lia|lia|discriminate Hlater]. }
  split; [vm_compute; reflexivity|]. split; [exact Hsummary|exact Hsize].
Defined.

(** ** The example application *)

(** What [route.ts] advertises and registers: the three dotted names with
    their descriptions and schemas, in declaration order. *)
Lemma route_registers (echo_fn list_fn get_fn : Args → Completion) :
  let h := eval (route echo_fn list_fn get_fn 0) loaded in
  let w := exec (route echo_fn list_fn get_fn 0) loaded in
  map fst (_tools h) = ["echo"; "organisations.list"; "organisations.get"]
  ∧ map (λ name, tools h !! name) ["echo"; "organisations.list"; "organisations.get"]
    = [Some (VObject [("description", VString "Echo a message")]);
       Some (VObject [("description", VString "List organisations")]);
       Some (VObject [("description", VString "Get an organisation")])]
  ∧ size (tools h) = 3
  ∧ map (λ rt, (rt_name rt, rt_description rt, rt_inputSchema rt)) (servers w !!! 0)
    = [("echo", "Echo a message", Some (z_object [("message", ZString)]));
       ("organisations.list", "List organisations", None);
       ("organisations.get", "Get an organisation", Some (z_object [("id", ZString)]))]
  ∧ map (λ rt, fn (cb_tool (rt_callback rt))) (servers w !!! 0) = [echo_fn; list_fn; get_fn].
Proof. cbn zeta. repeat split; vm_compute; reflexivity. Qed.

(** * Further properties of the code *)

(** ** [resolveTools]: tools, prefixes and empty keys *)

Lemma resolveEntry_tools (tool : ToolNode) :
  ∀ (fullName : string) (path : list string),
    map snd (resolveEntry fullName tool) = map snd (leavesOf path tool).
Proof.
  induction tool as [t|tools IH] using ToolNode_nested_ind; intros fullName path.
  - reflexivity.
  - cbn [resolveEntry leavesOf]. rewrite !map_flat_map. apply flat_map_Forall_ext.
    eapply Forall_impl; [exact IH|]. intros entry Hentry. apply Hentry.
Qed.

Lemma resolveTools_tools (tree : ToolTree) (parentName : option string) :
  map snd (resolveTools tree parentName) = toolsOf tree.
Proof.
  unfold resolveTools, toolsOf, leaves. rewrite !map_flat_map.
  apply flat_map_Forall_ext, Forall_forall. intros entry _. apply resolveEntry_tools.
Qed.

(** X1: given the entries of each record in the order in which
    [Object.entries] lists them, flattening returns every Tool of the tree
    exactly once, depth first in that order, whatever the parent name and
    whatever strings the keys are (empty, dotted or colliding); there are as
    many flattened pairs as the tree has Tools. *)
Theorem resolveTools_keeps_tools (tree : ToolTree) (parentName : option string) :
  map snd (resolveTools tree parentName) = toolsOf tree
  ∧ length (resolveTools tree parentName) = length (leaves tree).
Proof.
  pose proof (resolveTools_tools tree parentName) as Htools.
  split; [exact Htools|].
  apply (f_equal length) in Htools. unfold toolsOf in Htools.
  by rewrite !length_map in Htools.
Qed.

Lemma resolveEntry_prefixed (p : string) (tool : ToolNode) :
  ∀ path : list string,
    path ≠ [] →
    resolveEntry (p +:+ "." +:+ join_dot path) tool
    = map (λ leaf, (p +:+ "." +:+ join_dot leaf.1, leaf.2)) (leavesOf path tool).
Proof.
  induction tool as [t|tools IH] using ToolNode_nested_ind; intros path Hpath.
  - reflexivity.
  - cbn [resolveEntry leavesOf]. rewrite map_flat_map. apply flat_map_Forall_ext.
    eapply Forall_impl; [exact IH|]. intros [name sub] Hsub. cbn [fst snd] in *.
    rewrite fullNameOf_truthy by apply truthy_dotted.
    rewrite !string_app_assoc, <- join_dot_snoc by done.
    apply Hsub. by destruct path.
Qed.

(** X2: called with a non-empty parent name, [resolveTools] names every
    leaf by the parent name, a dot and the keys of its path joined with
    dots; below a non-empty parent an empty key is a component like any
    other. *)
Theorem resolveTools_under_parent (tools : ToolTree) (parent : string) :
  truthy (Some parent) = true →
  resolveTools tools (Some parent)
  = map (λ leaf, (parent +:+ "." +:+ join_dot leaf.1, leaf.2)) (leaves tools).
Proof.
  intros Hparent. unfold resolveTools, leaves. rewrite map_flat_map.
  apply flat_map_Forall_ext, Forall_forall. intros [name node] _. cbn [fst snd].
  rewrite fullNameOf_truthy by done.
  by apply (resolveEntry_prefixed parent node [name]).
Qed.

Lemma resolveTools_under_parent_witness :
  resolveTools [("", Nested [("a", IsTool echo_tool)])] (Some "ns")
  = [("ns..a", echo_tool)].
Proof.
  exact (resolveTools_under_parent [("", Nested [("a", IsTool echo_tool)])] "ns" eq_refl).
Defined.

Lemma effective_path_step (path : list string) (name : string) :
  path ≠ [] →
  fullNameOf (Some (join_dot (effective_path path))) name
  = join_dot (effective_path (path ++ [name])).
Proof.
  induction path as [|key path IH]; [done|]. intros _.
  destruct path as [|key' path].
  - destruct key; reflexivity.
  - destruct key as [|c key].
    + apply IH. done.
    + change (effective_path (String c key :: key' :: path)) with (String c key :: key' :: path).
      change (effective_path ((String c key :: key' :: path) ++ [name]))
        with ((String c key :: key' :: path) ++ [name]).
      rewrite fullNameOf_truthy by reflexivity.
      by rewrite join_dot_snoc.
Qed.

Lemma resolveEntry_effective (tool : ToolNode) :
  ∀ path : list string,
    path ≠ [] →
    resolveEntry (join_dot (effective_path path)) tool
    = map (λ leaf, (join_dot (effective_path leaf.1), leaf.2)) (leavesOf path tool).
Proof.
  induction tool as [t|tools IH] using ToolNode_nested_ind; intros path Hpath.
  - reflexivity.
  - cbn [resolveEntry leavesOf]. rewrite map_flat_map. apply flat_map_Forall_ext.
    eapply Forall_impl; [exact IH|]. intros [name sub] Hsub. cbn [fst snd] in *.
    rewrite effective_path_step by done. apply Hsub. by destruct path.
Qed.

Lemma resolveTools_effective (tree : ToolTree) :
  resolveTools tree None
  = map (λ leaf, (join_dot (effective_path leaf.1), leaf.2)) (leaves tree).
Proof.
  unfold resolveTools, leaves. rewrite map_flat_map.
  apply flat_map_Forall_ext, Forall_forall. intros [name node] _. cbn [fst snd].
  by apply (resolveEntry_effective node [name]).
Qed.

(** X3: on every tree, the name that [resolveTools] gives a leaf is the
    dotted join of the keys on its path once the empty keys at the front of
    the path are passed over (the last key is always kept); an empty parent
    name behaves like no parent name. *)
Theorem resolveTools_names (tree : ToolTree) :
  resolveTools tree None
  = map (λ leaf, (join_dot (effective_path leaf.1), leaf.2)) (leaves tree)
  ∧ resolveTools tree (Some "") = resolveTools tree None.
Proof.
  split; [|reflexivity].
  unfold resolveTools, leaves. rewrite map_flat_map.
  apply flat_map_Forall_ext, Forall_forall. intros [name node] _. cbn [fst snd].
  change name with (join_dot (effective_path [name])) at 1.
  apply (resolveEntry_effective node [name]). done.
Qed.

(** ** [resolveTools]: when names cannot collide *)

Lemma leavesOf_prefix (tool : ToolNode) :
  ∀ path : list string,
    leavesOf path tool = map (λ leaf, (path ++ leaf.1, leaf.2)) (leavesOf [] tool).
Proof.
  induction tool as [t|tools IH] using ToolNode_nested_ind; intros path.
  - cbn. by rewrite app_nil_r.
  - cbn [leavesOf]. rewrite map_flat_map. apply flat_map_Forall_ext.
    eapply Forall_impl; [exact IH|]. intros [name sub] Hsub. cbn [fst snd app] in *.
    rewrite (Hsub (path ++ [name])), (Hsub [name]), map_map. apply map_ext.
    intros [q t]. cbn [fst snd]. by rewrite <- app_assoc.
Qed.

Lemma leavesOf_prefix_paths (tool : ToolNode) (path : list string) :
  map fst (leavesOf path tool) = map (app path) (map fst (leavesOf [] tool)).
Proof. rewrite leavesOf_prefix, !map_map. reflexivity. Qed.

Lemma leaves_heads (tools : ToolTree) (p : list string) :
  p ∈ map fst (flat_map (λ entry, leavesOf [entry.1] entry.2) tools) →
  ∃ key q, p = key :: q ∧ key ∈ map fst tools.
Proof.
  induction tools as [|[key sub] tools IH]; cbn [flat_map map fst snd].
  - intros Hin. by apply elem_of_nil in Hin.
  - rewrite map_app, elem_of_app. intros [Hin|Hin].
    + rewrite leavesOf_prefix_paths in Hin.
      apply list_elem_of_fmap in Hin as (q & -> & _).
      exists key, q. split; [done|]. by left.
    + destruct (IH Hin) as (key' & q & -> & Hkey). exists key', q. split; [done|]. by right.
Qed.

(** Distinct keys at every level give distinct paths. *)
Lemma leavesOf_NoDup (tool : ToolNode) :
  distinct_keys tool = true → NoDup (map fst (leavesOf [] tool)).
Proof.
  induction tool as [t|tools IH] using ToolNode_nested_ind.
  - intros _. cbn. apply NoDup_singleton.
  - cbn [distinct_keys leavesOf app].
    intros [Hkeys Hsubs]%andb_true_iff. apply bool_decide_eq_true in Hkeys.
    rewrite forallb_forall in Hsubs.
    induction tools as [|[key sub] tools IHtools]; cbn [flat_map map fst snd] in *.
    { apply NoDup_nil_2. }
    apply NoDup_cons in Hkeys as [Hfresh Hkeys].
    apply Forall_cons in IH as [IHsub IH].
    rewrite map_app. apply NoDup_app. split; [|split].
    + rewrite leavesOf_prefix_paths.
      apply (NoDup_fmap_2 (app [key])). apply IHsub, (Hsubs (key, sub)). by left.
    + intros p Hp Hp'. apply leaves_heads in Hp' as (key' & q & -> & Hkey').
      rewrite leavesOf_prefix_paths in Hp.
      apply list_elem_of_fmap in Hp as (q' & Heq & _). cbn [app] in Heq.
      injection Heq as -> _. done.
    + apply IHtools; [done|done|]. intros entry Hentry. apply Hsubs. by right.
Qed.

Lemma string_app_String (c : ascii) (a b : string) : String c a +:+ b = String c (a +:+ b).
Proof. reflexivity. Qed.

Lemma string_app_empty (b : string) : "" +:+ b = b.
Proof. reflexivity. Qed.

Lemma dot_free_String (c : ascii) (key : string) :
  dot_free (String c key) = true → c ≠ "."%char ∧ dot_free key = true.
Proof.
  cbn [dot_free]. intros [Hc Hfree]%andb_true_iff. split; [|done].
  intros ->. discriminate Hc.
Qed.

Lemma dot_free_no_dot (key : string) :
  dot_free key = true → ∀ p rest, key ≠ p +:+ "." +:+ rest.
Proof.
  induction key as [|c key IH]; intros Hfree p rest.
  - by destruct p.
  - apply dot_free_String in Hfree as [Hc Hfree].
    destruct p as [|c' p]; repeat (rewrite string_app_empty || rewrite string_app_String).
    + intros [= -> _]. done.
    + intros [= _ Heq]. by apply (IH Hfree p rest).
Qed.

Lemma dot_split (key key' rest rest' : string) :
  dot_free key = true → dot_free key' = true →
  key +:+ "." +:+ rest = key' +:+ "." +:+ rest' → key = key' ∧ rest = rest'.
Proof.
  revert key'. induction key as [|c key IH]; intros [|c' key'] Hfree Hfree';
    repeat (rewrite string_app_empty || rewrite string_app_String); intros Heq.
  - by injection Heq as ->.
  - apply dot_free_String in Hfree' as [Hc' _]. injection Heq as <- _. done.
  - apply dot_free_String in Hfree as [Hc _]. injection Heq as -> _. done.
  - apply dot_free_String in Hfree as [_ Hfree]. apply dot_free_String in Hfree' as [_ Hfree'].
    injection Heq as -> Heq. destruct (IH key' Hfree Hfree' Heq) as [-> ->]. done.
Qed.

(** Joining with dots loses nothing when no key holds a dot. *)
Lemma join_dot_inj (p1 p2 : list string) :
  p1 ≠ [] → p2 ≠ [] →
  Forall (λ key, dot_free key = true) p1 → Forall (λ key, dot_free key = true) p2 →
  join_dot p1 = join_dot p2 → p1 = p2.
Proof.
  revert p2. induction p1 as [|key p1 IH]; [done|].
  intros p2 _ Hp2. destruct p2 as [|key' p2]; [done|].
  intros [Hkey H1]%Forall_cons [Hkey' H2]%Forall_cons Heq.
  destruct p1 as [|k1 p1], p2 as [|k2 p2].
  - cbn in Heq. by subst.
  - exfalso. by apply (dot_free_no_dot key Hkey key' (join_dot (k2 :: p2))).
  - exfalso. by apply (dot_free_no_dot key' Hkey' key (join_dot (k1 :: p1))).
  - apply (dot_split key key' (join_dot (k1 :: p1)) (join_dot (k2 :: p2))) in Heq
      as [-> Heq]; [|done|done].
    f_equal. by apply IH.
Qed.

Lemma leavesOf_plain (tool : ToolNode) :
  plain_keys tool = true →
  ∀ leaf, leaf ∈ leavesOf [] tool →
          Forall (λ key, truthy (Some key) = true ∧ dot_free key = true) leaf.1.
Proof.
  induction tool as [t|tools IH] using ToolNode_nested_ind; intros Hplain leaf Hleaf.
  - apply list_elem_of_singleton in Hleaf as ->. by constructor.
  - cbn [plain_keys leavesOf app] in *. rewrite forallb_forall in Hplain.
    induction tools as [|[key sub] tools IHtools]; cbn [flat_map] in Hleaf.
    { by apply elem_of_nil in Hleaf. }
    apply Forall_cons in IH as [IHsub IH].
    apply elem_of_app in Hleaf as [Hleaf|Hleaf].
    + specialize (Hplain (key, sub) (or_introl eq_refl)). cbn [fst snd] in *.
      apply andb_true_iff in Hplain as [[Htruthy Hfree]%andb_true_iff Hsub].
      rewrite leavesOf_prefix in Hleaf.
      apply list_elem_of_fmap in Hleaf as (leaf' & -> & Hleaf'). cbn [fst app].
      constructor; [done|]. by apply IHsub.
    + apply IHtools; [done| |done]. intros entry Hentry. apply Hplain. by right.
Qed.

Lemma effective_path_plain (path : list string) :
  Forall (λ key, truthy (Some key) = true ∧ dot_free key = true) path →
  effective_path path = path.
Proof.
  intros Hpath. destruct Hpath as [|key path [Hkey _] _]; [done|].
  destruct path; [done|]. cbn [effective_path]. by rewrite Hkey.
Qed.

(** Names of a tree with plain, distinct keys: joined paths, all different. *)
Lemma resolveTools_plain (tree : ToolTree) :
  distinct_keys (Nested tree) = true → plain_keys (Nested tree) = true →
  NoDup (map fst (resolveTools tree None)).
Proof.
  intros Hdistinct Hplain.
  pose proof (leavesOf_NoDup (Nested tree) Hdistinct) as Hpaths.
  pose proof (leavesOf_plain (Nested tree) Hplain) as Hkeys.
  change (leavesOf [] (Nested tree)) with (leaves tree) in Hpaths, Hkeys.
  rewrite resolveTools_effective, map_map. cbn [fst].
  rewrite <- (map_map fst (λ p, join_dot (effective_path p))).
  apply NoDup_fmap_2_strong; [|done].
  intros p1 p2 (leaf1 & -> & Hleaf1)%list_elem_of_fmap (leaf2 & -> & Hleaf2)%list_elem_of_fmap.
  pose proof (Hkeys leaf1 Hleaf1) as H1. pose proof (Hkeys leaf2 Hleaf2) as H2.
  rewrite !effective_path_plain by done.
  assert (∀ leaf, leaf ∈ leaves tree → leaf.1 ≠ []) as Hnonempty.
  { intros leaf Hleaf Hnil.
    assert (leaf.1 ∈ map fst (flat_map (λ entry, leavesOf [entry.1] entry.2) tree)) as Hin.
    { apply list_elem_of_fmap. by exists leaf. }
    apply leaves_heads in Hin as (key & q & Heq & _). congruence. }
  apply join_dot_inj; [by apply Hnonempty|by apply Hnonempty|..].
  - eapply Forall_impl; [exact H1|]. by intros key [_ ?].
  - eapply Forall_impl; [exact H2|]. by intros key [_ ?].
Qed.

(** X4: when every key of the tree is non-empty and free of dots, and no
    record holds a key twice, the flattened names are the keys of the paths
    joined with dots, and they are pairwise distinct. *)
Theorem resolveTools_names_distinct (tree : ToolTree) :
  distinct_keys (Nested tree) = true →
  plain_keys (Nested tree) = true →
  resolveTools tree None = flatten_spec tree
  ∧ NoDup (map fst (resolveTools tree None)).
Proof.
  intros Hdistinct Hplain. split; [|by apply resolveTools_plain].
  pose proof (leavesOf_plain (Nested tree) Hplain) as Hkeys.
  change (leavesOf [] (Nested tree)) with (leaves tree) in Hkeys.
  rewrite resolveTools_effective. unfold flatten_spec.
  apply map_ext_in. intros leaf Hleaf%list_elem_of_In.
  by rewrite effective_path_plain by apply Hkeys, Hleaf.
Qed.

Lemma resolveTools_names_distinct_witness :
  NoDup (map fst (resolveTools (tree_a_bcd echo_tool first_tool second_tool) None)).
Proof.
  apply (resolveTools_names_distinct (tree_a_bcd echo_tool first_tool second_tool));
    reflexivity.
Defined.

(** ** [createTools] and the names that [register] uses *)

Lemma write_all_keys {V} (entries : list (string * V)) (o : gmap string V) :
  dom (write_all entries o) = list_to_set (map fst entries) ∪ dom o.
Proof.
  apply set_eq. intros k.
  rewrite elem_of_union, elem_of_list_to_set, !elem_of_dom. apply write_all_dom.
Qed.

Lemma createTools_keys (w : World) (flat : list (string * Tool)) :
  dom (createTools w flat) = list_to_set (map fst flat).
Proof.
  unfold createTools. rewrite fromEntries_write_all, write_all_keys, map_map, dom_empty_L.
  cbn [fst]. apply (right_id_L ∅ (∪)).
Qed.

Lemma createTools_size (w : World) (flat : list (string * Tool)) :
  size (createTools w flat) = size (list_to_set (map fst flat) : gset string).
Proof. by rewrite <- (createTools_keys w), size_dom. Qed.

(** X6: the tools summary has one key for each distinct flattened name: never
    more keys than there are flattened pairs, exactly as many when the names
    are pairwise distinct, and none for an empty list. *)
Theorem createTools_one_key_per_name (w : World) (flat : list (string * Tool)) :
  size (createTools w flat) = size (list_to_set (map fst flat) : gset string)
  ∧ size (createTools w flat) ≤ length flat
  ∧ (NoDup (map fst flat) → size (createTools w flat) = length flat)
  ∧ createTools w [] = ∅.
Proof.
  split; [apply createTools_size|]. split; [|split; [|reflexivity]].
  - unfold createTools. rewrite fromEntries_write_all.
    pose proof (write_all_size (map (λ entry, (entry.1, summaryOf w entry.2)) flat) ∅) as H.
    by rewrite map_size_empty, length_map in H.
  - intros Hnodup. rewrite createTools_size, size_list_to_set by done. apply length_map.
Qed.

Lemma createTools_one_key_per_name_witness :
  size (createTools collision_world [("a", first_tool); ("b", second_tool)]) = 2.
Proof.
  apply (proj1 (proj2 (proj2 (createTools_one_key_per_name collision_world
                                [("a", first_tool); ("b", second_tool)])))).
  apply (bool_decide_unpack _). vm_compute. exact I.
Defined.

(** X5: for a tree whose keys are non-empty, free of dots and distinct within
    each record, the tools summary of the Handler has exactly one key per
    Tool of the tree, and maps the name of every flattened pair to the
    description of the Tool of that very pair. *)
Theorem tools_summary_plain_keys
    (w : World) (rpc : loc) (tree : ToolTree) (i : nat) (name : string) (t : Tool) :
  distinct_keys (Nested tree) = true →
  plain_keys (Nested tree) = true →
  resolveTools tree None !! i = Some (name, t) →
  let h := handler (RPC_create rpc) tree w in
  size (tools h) = length (toolsOf tree)
  ∧ tools h !! name = Some (VObject [("description", VString (Tool_description w t))]).
Proof.
  intros Hdistinct Hplain Hi h.
  pose proof (resolveTools_plain tree Hdistinct Hplain) as Hnodup.
  cbn [h handler RPC_create createHandlerFactory tools]. split.
  - rewrite createTools_size, size_list_to_set by done.
    by rewrite <- (resolveTools_tools tree None), !length_map.
  - apply (createTools_lookup_last w _ i name t Hi).
    intros j [name' t'] Hj Hlater Heq. cbn [fst] in Heq. subst name'.
    assert (i = j); [|lia].
    apply (NoDup_lookup (map fst (resolveTools tree None)) i j name Hnodup).
    + by rewrite list_lookup_fmap, Hi.
    + by rewrite list_lookup_fmap, Hlater.
Qed.

Lemma tools_summary_plain_keys_witness :
  tools (handler (RPC_create initRPC) (tree_a_bcd echo_tool first_tool second_tool)
           collision_world) !! "b.c"
  = Some (VObject [("description", VString "first")]).
Proof.
  refine (proj2 (tools_summary_plain_keys collision_world initRPC
                   (tree_a_bcd echo_tool first_tool second_tool) 1 "b.c" first_tool
                   eq_refl eq_refl eq_refl)).
Defined.

(** X7: the names under which [register] installs callbacks are the
    flattened names in order, and they are exactly the keys of the tools
    summary of the same Handler: nothing is registered that is not
    advertised, and nothing advertised that is not registered. *)
Theorem registered_names_are_summary_keys
    (created w : World) (rpc : loc) (tree : ToolTree) (server : loc) (name : string) :
  let h := handler (RPC_create rpc) tree created in
  let table := servers (exec (register h server) w) !!! server in
  map rt_name table = map rt_name (servers w !!! server) ++ map fst (resolveTools tree None)
  ∧ (name ∈ map rt_name (installed h w) ↔ is_Some (tools h !! name)).
Proof.
  intros h table. subst table.
  destruct (register_effect h server w) as (_ & _ & -> & _).
  assert (map rt_name (installed h w) = map fst (resolveTools tree None)) as Hnames.
  { unfold installed. rewrite map_map. reflexivity. }
  rewrite map_app, Hnames. split; [reflexivity|].
  cbn [h handler RPC_create createHandlerFactory tools].
  rewrite <- elem_of_dom, createTools_keys, elem_of_list_to_set. reflexivity.
Qed.

(** X8: a tree that holds no Tool at any depth (only empty records) gives a
    Handler with an empty flattened list and an empty summary, and its
    [register] leaves the whole store, the server included, as it was. *)
Theorem handler_without_tools (w : World) (rpc : loc) (tree : ToolTree) (server : loc) :
  toolsOf tree = [] →
  let h := handler (RPC_create rpc) tree w in
  _tools h = [] ∧ tools h = ∅ ∧ exec (register h server) w = w.
Proof.
  intros Hnone h.
  assert (resolveTools tree None = []) as Hflat.
  { pose proof (resolveTools_tools tree None) as Htools. rewrite Hnone in Htools.
    by destruct (resolveTools tree None). }
  cbn [h handler RPC_create createHandlerFactory _tools tools]. rewrite Hflat.
  split; [reflexivity|]. split; [reflexivity|].
  unfold register. cbn [handler RPC_create createHandlerFactory _tools]. by rewrite Hflat.
Qed.

Lemma handler_without_tools_witness :
  toolsOf tree_no_tools = []
  ∧ exec (register (handler (RPC_create initRPC) tree_no_tools loaded) 0) loaded = loaded.
Proof.
  split; [reflexivity|].
  apply (handler_without_tools loaded initRPC tree_no_tools 0). reflexivity.
Defined.

(** ** The registry across sequences of calls *)

(** Every call leaves the registries that exist in place; only [context]
    and [metadata] on a registry rewrite its fields, each its own. *)
Lemma step_rpc (op : Op) (w : World) (rpc : loc) (r : RPC) :
  rpcs w !! rpc = Some r →
  ∃ r', rpcs (step op w) !! rpc = Some r'
        ∧ (is_context_on rpc op = false → createContext r' = createContext r)
        ∧ (is_metadata_on rpc op = false → _metadata r' = _metadata r).
Proof.
  intros Hr. destruct op; cbn [step is_context_on is_metadata_on];
    try (exists r; done).
  - exists r. split; [|done]. unfold exec, createRPCBuilder, new_RPC. cbn.
    rewrite lookup_insert_ne; [done|].
    intros Heq. pose proof (is_fresh (dom (rpcs w))) as Hfresh.
    rewrite Heq in Hfresh. apply Hfresh, elem_of_dom. eauto.
  - unfold exec, RPC_context. cbn.
    destruct (decide (rpc0 = rpc)) as [->|Hne].
    + rewrite lookup_insert_eq. eexists. split; [done|]. cbn.
      rewrite lookup_total_alt, Hr. split; [|done].
      rewrite bool_decide_eq_false. done.
    + exists r. by rewrite lookup_insert_ne.
  - unfold exec, RPC_metadata. cbn.
    destruct (decide (rpc0 = rpc)) as [->|Hne].
    + rewrite lookup_insert_eq. eexists. split; [done|]. cbn.
      rewrite lookup_total_alt, Hr. split; [done|].
      rewrite bool_decide_eq_false. done.
    + exists r. by rewrite lookup_insert_ne.
  - exists r. by destruct (register_effect h server w) as (_ & -> & _).
Qed.

Lemma run_rpc (ops : list Op) (w : World) (rpc : loc) (r : RPC) :
  rpcs w !! rpc = Some r →
  ∃ r', rpcs (run ops w) !! rpc = Some r'
        ∧ (forallb (λ op, negb (is_context_on rpc op)) ops = true
           → createContext r' = createContext r)
        ∧ (forallb (λ op, negb (is_metadata_on rpc op)) ops = true
           → _metadata r' = _metadata r).
Proof.
  revert w r. induction ops as [|op ops IH]; intros w r Hr.
  - exists r. done.
  - destruct (step_rpc op w rpc r Hr) as (r1 & Hr1 & Hc1 & Hm1).
    destruct (IH (step op w) r1 Hr1) as (r2 & Hr2 & Hc2 & Hm2).
    exists r2. split; [exact Hr2|]. cbn [forallb]. split.
    + intros [Hop Hops]%andb_true_iff. rewrite Hc2 by done. apply Hc1. by apply negb_true_iff.
    + intros [Hop Hops]%andb_true_iff. rewrite Hm2 by done. apply Hm1. by apply negb_true_iff.
Qed.

(** X9: a Handler carries the metadata that was last given to [metadata] on
    its registry before the Handler was created, whatever other calls
    (context, tool, input, register, other registries) came in between. *)
Theorem handler_metadata_last_set
    (w : World) (rpc : loc) (m : gmap string value) (ops : list Op) (tree : ToolTree) :
  forallb (λ op, negb (is_metadata_on rpc op)) ops = true →
  metadata (handler (RPC_create rpc) tree (run ops (exec (RPC_metadata rpc m) w))) = m.
Proof.
  intros Hops.
  destruct (run_rpc ops (exec (RPC_metadata rpc m) w) rpc
              {| createContext := createContext (rpcs w !!! rpc); _metadata := m |})
    as (r' & Hr' & _ & Hm).
  { unfold exec, RPC_metadata. cbn. apply lookup_insert_eq. }
  cbn [handler RPC_create createHandlerFactory metadata].
  rewrite lookup_total_alt, Hr'. cbn. by apply Hm.
Qed.

Lemma handler_metadata_last_set_witness :
  metadata (handler (RPC_create initRPC) whoami_tree
              (run [OpContext initRPC factory_after; OpTool initRPC "Echo a message"]
                 (exec (RPC_metadata initRPC {[ "version" := VString "1" ]}) loaded)))
  = {[ "version" := VString "1" ]}.
Proof. apply handler_metadata_last_set. reflexivity. Defined.

(** X10: a callback uses the context factory that was last given to
    [context] on its registry, whatever other calls came in between. *)
Theorem callback_uses_last_context
    (w : World) (f : value → Completion) (ops : list Op) (cb : Callback)
    (input authInfo : value) :
  forallb (λ op, negb (is_context_on (cb_rpc cb) op)) ops = true →
  callback_run (run ops (exec (RPC_context (cb_rpc cb) f) w)) cb input authInfo
  = callback_body (Some f) (cb_tool cb) input authInfo.
Proof.
  intros Hops.
  destruct (run_rpc ops (exec (RPC_context (cb_rpc cb) f) w) (cb_rpc cb)
              {| createContext := Some f; _metadata := _metadata (rpcs w !!! cb_rpc cb) |})
    as (r' & Hr' & Hc & _).
  { unfold exec, RPC_context. cbn. apply lookup_insert_eq. }
  unfold callback_run. rewrite lookup_total_alt, Hr'. cbn. by rewrite Hc.
Qed.

Lemma callback_uses_last_context_witness :
  callback_run (run [OpMetadata initRPC ∅; OpRegister whoami_handler 0]
                  (exec (RPC_context (cb_rpc whoami_callback) factory_after) echo_world))
    whoami_callback VNull VNull
  = ([CallCreateContext VNull; CallFn {| ctx := VString "after"; input := VNull |}],
     Fulfilled (VString "after")).
Proof.
  exact (callback_uses_last_context echo_world factory_after
           [OpMetadata initRPC ∅; OpRegister whoami_handler 0] whoami_callback
           VNull VNull eq_refl).
Defined.

(** X11: what a callback of an existing registry does is changed by no call
    except [context] on that registry: not by [metadata], by new builders or
    schemas, by registrations, by new registries, nor by [context] on another
    registry. *)
Theorem callback_frame
    (w : World) (ops : list Op) (cb : Callback) (input authInfo : value) :
  is_Some (rpcs w !! cb_rpc cb) →
  forallb (λ op, negb (is_context_on (cb_rpc cb) op)) ops = true →
  callback_run (run ops w) cb input authInfo = callback_run w cb input authInfo.
Proof.
  intros [r Hr] Hops.
  destruct (run_rpc ops w (cb_rpc cb) r Hr) as (r' & Hr' & Hc & _).
  unfold callback_run. rewrite !lookup_total_alt, Hr, Hr'. cbn. by rewrite Hc.
Qed.

Lemma callback_frame_witness :
  callback_run (run [OpCreateRPCBuilder; OpContext 1 factory_after;
                     OpInput echo_builder message_schema] whoami_registered)
    whoami_callback VNull VNull
  = callback_run whoami_registered whoami_callback VNull VNull.
Proof.
  apply callback_frame; [|reflexivity].
  vm_compute. eauto.
Defined.

(** X12: [context] and [metadata] on one registry commute, and for each of
    them a second call makes the first one void: the store after
    [context(g).context(f)] is the store after [context(f)], and likewise
    for [metadata]. *)
Theorem RPC_setters_compose
    (w : World) (this : loc) (f g : value → Completion) (m m' : gmap string value) :
  exec (RPC_context this f) (exec (RPC_metadata this m) w)
  = exec (RPC_metadata this m) (exec (RPC_context this f) w)
  ∧ exec (RPC_context this f) (exec (RPC_context this g) w) = exec (RPC_context this f) w
  ∧ exec (RPC_metadata this m) (exec (RPC_metadata this m') w) = exec (RPC_metadata this m) w.
Proof.
  unfold exec, RPC_context, RPC_metadata, set_rpcs. cbn [snd rpcs builders servers].
  rewrite !lookup_total_insert_eq, !insert_insert_eq. cbn. done.
Qed.

(** X13: [createRPCBuilder] makes a registry that is none of the existing
    ones, with no context factory and empty metadata; the existing
    registries, the builders and the servers stay as they are, and a
    callback of the new registry hands [undefined] to its handler. *)
Theorem createRPCBuilder_fresh (w : World) (cb : Callback) (input authInfo : value) :
  let rpc := eval createRPCBuilder w in
  let w' := exec createRPCBuilder w in
  rpcs w !! rpc = None
  ∧ rpcs w' !! rpc = Some {| createContext := None; _metadata := ∅ |}
  ∧ (∀ other, other ≠ rpc → rpcs w' !! other = rpcs w !! other)
  ∧ builders w' = builders w ∧ servers w' = servers w
  ∧ (cb_rpc cb = rpc →
     callback_run w' cb input authInfo
     = ([CallFn {| ctx := VUndefined; input := input |}],
        async_return (fn (cb_tool cb) {| ctx := VUndefined; input := input |}))).
Proof.
  intros rpc w'. subst rpc w'. unfold eval, exec, createRPCBuilder, new_RPC.
  cbn [fst snd rpcs builders servers set_rpcs].
  split; [apply not_elem_of_dom, is_fresh|].
  split; [apply lookup_insert_eq|].
  split; [intros other Hother; by rewrite lookup_insert_ne|].
  split; [reflexivity|]. split; [reflexivity|].
  intros Hcb. unfold callback_run. rewrite Hcb. cbn [fst rpcs set_rpcs].
  rewrite lookup_total_insert_eq. reflexivity.
Qed.

Lemma createRPCBuilder_fresh_witness :
  callback_run loaded whoami_callback (VString "in") VNull
  = ([CallFn {| ctx := VUndefined; input := VString "in" |}], Fulfilled VUndefined).
Proof.
  exact (proj2 (proj2 (proj2 (proj2 (proj2
           (createRPCBuilder_fresh empty_world whoami_callback (VString "in") VNull)))))
           eq_refl).
Defined.

(** ** The builder chain *)

(** X14: [rpc.tool(d).input(s).handler(fn)] yields a Tool that shows
    description [d], schema [s] and handler [fn], and [rpc.tool(d).handler(fn)]
    one that shows [d] and no schema; the builder is a new one, so every Tool
    made before keeps its description and its schema. *)
Theorem builder_chain
    (w : World) (rpc : loc) (d : string) (s : ZodObject) (f : Args → Completion)
    (earlier : Tool) :
  let t := eval (tool_input_handler rpc d s f) w in
  let w' := exec (tool_input_handler rpc d s f) w in
  let t0 := eval (tool_handler rpc d f) w in
  let w0 := exec (tool_handler rpc d f) w in
  (Tool_description w' t = d ∧ Tool_input w' t = Some s ∧ fn t = f)
  ∧ (Tool_description w0 t0 = d ∧ Tool_input w0 t0 = None ∧ fn t0 = f)
  ∧ builders w !! builder t = None
  ∧ (is_Some (builders w !! builder earlier) →
     Tool_description w' earlier = Tool_description w earlier
     ∧ Tool_input w' earlier = Tool_input w earlier).
Proof.
  intros t w' t0 w0. subst t w' t0 w0.
  unfold eval, exec, tool_input_handler, tool_handler, Tool_description, Tool_input.
  unfold mbind, State_bind, mret, State_ret, tool, RPC_create, createToolFactory,
    new_ToolBuilder, ToolBuilder_input, ToolBuilder_handler.
  cbn. rewrite !lookup_total_insert_eq. cbn.
  split; [done|]. split; [done|].
  split; [apply not_elem_of_dom, is_fresh|].
  intros [tb Hearlier].
  assert (fresh (dom (builders w)) ≠ builder earlier) as Hne.
  { intros Heq. pose proof (is_fresh (dom (builders w))) as Hfresh.
    rewrite Heq in Hfresh. apply Hfresh, elem_of_dom. eauto. }
  rewrite insert_insert_eq, lookup_total_insert_ne by done. done.
Qed.

Lemma builder_chain_witness :
  is_Some (builders echo_world !! builder echo_tool)
  ∧ Tool_input (exec (tool_input_handler initRPC "Get an organisation"
                        (z_object [("id", ZString)]) (fn echo_tool)) echo_world) echo_tool
    = Tool_input echo_world echo_tool.
Proof.
  assert (is_Some (builders echo_world !! builder echo_tool)) as Hb.
  { vm_compute. eauto. }
  split; [exact Hb|].
  exact (proj2 (proj2 (proj2 (proj2
           (builder_chain echo_world initRPC "Get an organisation"
              (z_object [("id", ZString)]) (fn echo_tool) echo_tool))) Hb)).
Defined.

(** ** [register] reads the builders when it runs *)

(** X15: [register] installs the description and the schema that the
    builder of each Tool holds when [register] runs.  A schema given to
    [input] on that builder after the Handler was created is the one that
    gets registered. *)
Theorem register_reads_builder_when_called
    (created w : World) (rpc : loc) (tree : ToolTree) (server : loc)
    (i : nat) (name : string) (t : Tool) (schema : ZodObject) :
  resolveTools tree None !! i = Some (name, t) →
  let h := handler (RPC_create rpc) tree created in
  let w' := exec (ToolBuilder_input (builder t) schema) w in
  (servers (exec (register h server) w') !!! server) !! (length (servers w !!! server) + i)
  = Some {| rt_name := name;
            rt_description := Tool_description w t;
            rt_inputSchema := Some schema;
            rt_callback := {| cb_rpc := rpc; cb_tool := t |} |}.
Proof.
  intros Hi h w'.
  destruct (register_effect h server w') as (_ & _ & -> & _).
  change (servers w') with (servers w).
  rewrite lookup_app_r by lia.
  replace (length (servers w !!! server) + i - length (servers w !!! server)) with i by lia.
  unfold installed. cbn [h handler RPC_create createHandlerFactory _tools handler_rpc].
  rewrite list_lookup_fmap, Hi. cbn [fmap option_fmap option_map]. f_equal.
  unfold row, Tool_description, Tool_input, w', exec, ToolBuilder_input.
  cbn [fst snd builders set_builders]. by rewrite lookup_total_insert_eq.
Qed.

Lemma register_reads_builder_when_called_witness :
  (servers (exec (register whoami_handler 0)
              (exec (ToolBuilder_input (builder echo_tool) message_schema) whoami_world))
   !!! 0) !! 0
  = Some {| rt_name := "whoami";
            rt_description := "Echo a message";
            rt_inputSchema := Some message_schema;
            rt_callback := whoami_callback |}.
Proof.
  exact (register_reads_builder_when_called whoami_world whoami_world initRPC
           whoami_tree 0 0 "whoami" echo_tool message_schema eq_refl).
Defined.

(** ** More on a running callback *)

(** X16: a callback fulfils only through the handler of its Tool: if the
    promise it hands to the server is fulfilled with [v], then the handler
    was called, with the given input and with the context obtained from the
    registry's factory ([undefined] without a factory), and [v] is what the
    handler's result resolves to. *)
Theorem callback_fulfils_through_handler
    (w : World) (cb : Callback) (input authInfo v : value) :
  (callback_run w cb input authInfo).2 = Fulfilled v →
  ∃ context,
    (createContext (rpcs w !!! cb_rpc cb) = None ∧ context = VUndefined
     ∨ ∃ f, createContext (rpcs w !!! cb_rpc cb) = Some f ∧ await (f authInfo) = Got context)
    ∧ CallFn {| ctx := context; input := input |} ∈ (callback_run w cb input authInfo).1
    ∧ await (fn (cb_tool cb) {| ctx := context; input := input |}) = Got v.
Proof.
  unfold callback_run, callback_body.
  destruct (createContext (rpcs w !!! cb_rpc cb)) as [f|].
  - destruct (await (f authInfo)) as [context|e|] eqn:Hawait; cbn [fst snd]; [|done..].
    intros Hfulfilled. exists context. split; [right; by exists f|].
    split; [apply elem_of_app; right; apply list_elem_of_here|].
    by rewrite <- observe_async_return, Hfulfilled.
  - cbn [fst snd]. intros Hfulfilled. exists VUndefined. split; [by left|].
    split; [apply list_elem_of_here|].
    by rewrite <- observe_async_return, Hfulfilled.
Qed.

Lemma callback_fulfils_through_handler_witness :
  ∃ context,
    (createContext (rpcs userId_world !!! initRPC) = None ∧ context = VUndefined
     ∨ ∃ f, createContext (rpcs userId_world !!! initRPC) = Some f
            ∧ await (f VNull) = Got context)
    ∧ CallFn {| ctx := context; input := VNull |}
      ∈ (callback_run userId_world {| cb_rpc := initRPC; cb_tool := userId_tool |}
           VNull VNull).1
    ∧ await (fn userId_tool {| ctx := context; input := VNull |})
      = Got (text_content (VString "123")).
Proof.
  apply (callback_fulfils_through_handler userId_world
           {| cb_rpc := initRPC; cb_tool := userId_tool |} VNull VNull).
  vm_compute. reflexivity.
Defined.

(** X17: the callback cannot tell a synchronous factory or handler from an
    asynchronous one: its outcome depends on the factory only through what
    awaiting the factory's result gives, and on the handler only through
    what its result resolves to. *)
Theorem callback_sync_async_alike
    (f f' : value → Completion) (t t' : Tool) (input authInfo : value) :
  await (f authInfo) = await (f' authInfo) →
  (∀ args, await (fn t args) = await (fn t' args)) →
  callback_body (Some f) t input authInfo = callback_body (Some f') t' input authInfo
  ∧ callback_body None t input authInfo = callback_body None t' input authInfo.
Proof.
  intros Hf Ht.
  assert (∀ args, async_return (fn t args) = async_return (fn t' args)) as Hreturn.
  { intros args. specialize (Ht args). rewrite <- !observe_async_return in Ht.
    by destruct (async_return (fn t args)), (async_return (fn t' args)); simplify_eq/=. }
  unfold callback_body. rewrite Hf.
  split; [destruct (await (f' authInfo))|]; cbn; by rewrite ?Hreturn.
Qed.

Lemma callback_sync_async_alike_witness :
  callback_body (Some factory_after) echo_tool VNull VNull
  = callback_body (Some (λ _, Return (Promise (Fulfilled (VString "after")))))
      {| builder := echo_builder; fn := λ args, Return (Promise (Fulfilled (ctx args))) |}
      VNull VNull.
Proof.
  apply (callback_sync_async_alike factory_after
           (λ _, Return (Promise (Fulfilled (VString "after")))) echo_tool
           {| builder := echo_builder; fn := λ args, Return (Promise (Fulfilled (ctx args))) |}
           VNull VNull); [reflexivity|].
  intros args. reflexivity.
Defined.

(** X18: when the promise of the context factory never settles, the handler
    is never called and the callback never settles; when the handler's
    promise never settles, neither does the callback.  In every run the
    factory, if there is one, is called exactly once, before the handler,
    and the handler at most once. *)
Theorem callback_call_discipline
    (w : World) (cb : Callback) (input authInfo : value) :
  let factory := createContext (rpcs w !!! cb_rpc cb) in
  let outcome := callback_run w cb input authInfo in
  (∀ f, factory = Some f → await (f authInfo) = Suspended →
        outcome = ([CallCreateContext authInfo], Pending))
  ∧ (∀ args, last outcome.1 = Some (CallFn args) →
             await (fn (cb_tool cb) args) = Suspended → outcome.2 = Pending)
  ∧ (∃ args, outcome.1 = [CallFn args] ∧ factory = None
     ∨ outcome.1 = [CallCreateContext authInfo; CallFn args] ∧ is_Some factory
     ∨ outcome.1 = [CallCreateContext authInfo] ∧ is_Some factory
       ∧ ∀ v, outcome.2 ≠ Fulfilled v).
Proof.
  intros factory outcome. subst outcome. unfold callback_run, callback_body. fold factory.
  assert (∀ args, await (fn (cb_tool cb) args) = Suspended →
                  async_return (fn (cb_tool cb) args) = Pending) as Hpending.
  { intros args Hs. rewrite <- observe_async_return in Hs.
    by destruct (async_return (fn (cb_tool cb) args)). }
  split; [|split].
  - intros f -> Hs. by rewrite Hs.
  - intros args. destruct factory as [f|]; [destruct (await (f authInfo))|];
      cbn [fst snd app last]; intros Hlast; simplify_eq/=; apply Hpending.
  - destruct factory as [f|]; [destruct (await (f authInfo)) as [context|e|]|]; cbn [fst snd app].
    + exists {| ctx := context; input := input |}. right. left. eauto.
    + exists {| ctx := VUndefined; input := input |}. right. right. eauto.
    + exists {| ctx := VUndefined; input := input |}. right. right. eauto.
    + exists {| ctx := VUndefined; input := input |}. left. eauto.
Qed.

Lemma callback_call_discipline_witness :
  callback_run (step (OpContext initRPC hanging_factory) echo_world) whoami_callback
    VNull VNull
  = ([CallCreateContext VNull], Pending)
  ∧ (callback_run echo_world {| cb_rpc := initRPC; cb_tool := hanging_tool |} VNull VNull).2
    = Pending.
Proof.
  split.
  - apply (proj1 (callback_call_discipline (step (OpContext initRPC hanging_factory) echo_world)
                    whoami_callback VNull VNull) hanging_factory).
    + vm_compute. reflexivity.
    + reflexivity.
  - apply (proj1 (proj2 (callback_call_discipline echo_world
                           {| cb_rpc := initRPC; cb_tool := hanging_tool |} VNull VNull))
             {| ctx := VUndefined; input := VNull |}).
    + vm_compute. reflexivity.
    + reflexivity.
Defined.

(** ** Tool tables only grow *)

Lemma step_table (op : Op) (w : World) (server : loc) :
  ∃ added, servers (step op w) !!! server = (servers w !!! server) ++ added.
Proof.
  destruct op; cbn [step]; try (exists []; by rewrite app_nil_r).
  destruct (register_effect h server0 w) as (_ & _ & Hsame & Hother).
  destruct (decide (server0 = server)) as [->|Hne].
  - by exists (installed h w).
  - exists []. by rewrite app_nil_r, !lookup_total_alt, Hother.
Qed.

(** X19: no call of the library removes, replaces or reorders a row of a
    server's tool table: after any sequence of calls the table of every
    server starts with the rows it had before. *)
Theorem tables_only_grow (ops : list Op) (w : World) (server : loc) :
  ∃ added, servers (run ops w) !!! server = (servers w !!! server) ++ added.
Proof.
  revert w. induction ops as [|op ops IH]; intros w.
  - exists []. by rewrite app_nil_r.
  - destruct (step_table op w server) as [added1 H1].
    destruct (IH (step op w)) as [added2 H2].
    exists (added1 ++ added2).
    change (run (op :: ops) w) with (run ops (step op w)).
    by rewrite H2, H1, app_assoc.
Qed.
